(** * Parallax View Portal: the image-processing job pipeline

    A shallow embedding of [services/api/app]: the job ledger of
    [services/database.py], the pipeline and the fallback computers of
    [services/processor.py], with the enumerations of [models/job.py].

    Python values are modelled as follows.
    - [int] is [Z]; [//] is [Z.div] (both floor).
    - [float] is an IEEE-754 binary64 number, [spec_float] at precision 53
      and maximal exponent 1024; every arithmetic operation rounds to
      nearest-even, as CPython's does.
    - an exception is a value [PyExc]; a computation that may raise has
      type [PyResult A].
    - a PIL image is its mode, its size and its row-major pixel buffer. *)

From Stdlib Require Import ZArith Lia Sorting.Sorted Ascii.
From Stdlib Require Import Floats.SpecFloat.
From Stdlib Require Import QArith.
From stdpp Require Import gmap strings list fin_maps.

Local Open Scope Z_scope.

(** ** Exceptions and results *)

Module Py.

Inductive ExcType :=
  | FileNotFoundError
  | ZeroDivisionError
  | ValueError
  | OverflowError
  | IndexError
  | OSError
  | HTTPError
  | UnidentifiedImageError
  | IntegrityError
  | OperationalError
  | Exception.

Record PyExc := mkExc { exc_type : ExcType; exc_msg : string }.

(** [str(e)]. *)
Definition str (e : PyExc) : string := exc_msg e.

Inductive PyResult (A : Type) :=
  | Ok (a : A)
  | Raise (e : PyExc).
Arguments Ok {A} a.
Arguments Raise {A} e.

#[global] Instance PyResult_ret : MRet PyResult := fun A a => Ok a.
#[global] Instance PyResult_bind : MBind PyResult := fun A B f m =>
  match m with
  | Ok a => f a
  | Raise e => Raise e
  end.

(** [for i in range(stop): s = body(i, s)], stopping at the first
    exception. *)
Fixpoint for_range_from {S : Type} (start : Z) (n : nat)
    (body : Z -> S -> PyResult S) (s : S) : PyResult S :=
  match n with
  | O => Ok s
  | Datatypes.S n' =>
      match body start s with
      | Ok s' => for_range_from (start + 1) n' body s'
      | Raise e => Raise e
      end
  end.

Definition for_range {S : Type} (stop : Z) (body : Z -> S -> PyResult S)
    (s : S) : PyResult S :=
  for_range_from 0 (Z.to_nat stop) body s.

(** Truthiness of an optional string such as [os.getenv(...)]: [None] and
    the empty string are falsy. *)
Definition truthy (s : option string) : bool :=
  match s with
  | None => false
  | Some t => negb (String.eqb t "")
  end.

End Py.
Export Py.

(** ** Floats *)

Module PyFloat.

Definition prec : Z := 53.
Definition emax : Z := 1024.

Abbreviation float := spec_float.

Definition fadd : float -> float -> float := SFadd prec emax.
Definition fsub : float -> float -> float := SFsub prec emax.
Definition fmul : float -> float -> float := SFmul prec emax.
Definition fdiv : float -> float -> float := SFdiv prec emax.
Definition fsqrt : float -> float := SFsqrt prec emax.
Definition fle : float -> float -> bool := SFleb.
Definition flt : float -> float -> bool := SFltb.

(** Conversion [int -> float], correctly rounded.  CPython raises
    [OverflowError] from 2^1024 on; pixel coordinates and image sizes are
    machine integers, far below, so the conversion is taken total. *)
Definition float_of_int (z : Z) : float := binary_normalize prec emax z 0 false.

Definition emin : Z := SpecFloat.emin prec emax.

(** A non-zero number of sign [s] whose exponent is at least [e]. *)
Definition nonzero_from (s : bool) (e : Z) (x : float) : Prop :=
  match x with
  | S754_finite s' _ e' => s' = s /\ e <= e'
  | S754_infinity s' => s' = s
  | _ => False
  end.

(** [x == 0.0] *)
Definition is_zero (x : float) : bool :=
  match x with
  | S754_zero _ => true
  | _ => false
  end.

(** The literals of the source.  A decimal literal denotes the double
    nearest to it, which is the correctly rounded quotient below. *)
Definition lit_0_4 : float := Eval vm_compute in fdiv (float_of_int 4) (float_of_int 10).
Definition lit_1_5 : float := Eval vm_compute in fdiv (float_of_int 3) (float_of_int 2).
Definition lit_0_75 : float := Eval vm_compute in fdiv (float_of_int 3) (float_of_int 4).

(** [a / b] on floats. *)
Definition truediv (a b : float) : PyResult float :=
  if is_zero b then Raise (mkExc ZeroDivisionError "float division by zero")
  else Ok (fdiv a b).

(** [a / b] on integers: the correctly rounded quotient.  Both operands
    convert exactly below 2^53, where [fdiv] of the conversions is that
    quotient. *)
Definition int_truediv (a b : Z) : PyResult float :=
  if b =? 0 then Raise (mkExc ZeroDivisionError "division by zero")
  else Ok (fdiv (float_of_int a) (float_of_int b)).

(** [math.sqrt(x)] *)
Definition math_sqrt (x : float) : PyResult float :=
  match x with
  | S754_finite true _ _ | S754_infinity true =>
      Raise (mkExc ValueError "math domain error")
  | _ => Ok (fsqrt x)
  end.

(** [int(x)]: truncation towards zero. *)
Definition int_of_float (x : float) : PyResult Z :=
  match x with
  | S754_nan => Raise (mkExc ValueError "cannot convert float NaN to integer")
  | S754_infinity _ =>
      Raise (mkExc OverflowError "cannot convert float infinity to integer")
  | S754_zero _ => Ok 0
  | S754_finite s m e =>
      let a := Z.shiftl (Zpos m) e in
      Ok (if s then - a else a)
  end.

End PyFloat.
Export PyFloat.

(** ** Images (PIL) *)

Module PIL.

Record Image := mkImage {
  mode : string;
  size : Z * Z;
  im : list Z
}.

Definition width (i : Image) : Z := fst (size i).
Definition height (i : Image) : Z := snd (size i).

(** An 8-bit band stores its values clipped to [0, 255]. *)
Definition clip8 (v : Z) : Z := Z.max 0 (Z.min 255 v).

(** [Image.new(mode, (w, h), color)] *)
Definition Image_new (m : string) (sz : Z * Z) (color : Z) : PyResult Image :=
  let '(w, h) := sz in
  if (w <? 0) || (h <? 0) then
    Raise (mkExc ValueError "Width and height must be >= 0")
  else Ok (mkImage m (w, h) (replicate (Z.to_nat (w * h)) (clip8 color))).

Definition in_bounds (i : Image) (xy : Z * Z) : bool :=
  let '(x, y) := xy in
  (0 <=? x) && (x <? width i) && (0 <=? y) && (y <? height i).

Definition offset (i : Image) (xy : Z * Z) : nat :=
  Z.to_nat (snd xy * width i + fst xy).

(** [image.putpixel((x, y), value)] on a single-band image. *)
Definition putpixel (i : Image) (xy : Z * Z) (value : Z) : PyResult Image :=
  if in_bounds i xy then
    Ok (mkImage (mode i) (size i) (<[offset i xy := clip8 value]> (im i)))
  else Raise (mkExc IndexError "image index out of range").

(** [image.getpixel((x, y))] *)
Definition getpixel (i : Image) (xy : Z * Z) : option Z :=
  if in_bounds i xy then im i !! offset i xy else None.

End PIL.
Export PIL.

(** ** Enumerations ([models/job.py]) *)

Inductive JobStatus := PENDING | PROCESSING | COMPLETED | FAILED.

Inductive InputType := OBJECT | LANDSCAPE | UNKNOWN.

Definition JobStatus_value (s : JobStatus) : string :=
  match s with
  | PENDING => "pending"
  | PROCESSING => "processing"
  | COMPLETED => "completed"
  | FAILED => "failed"
  end.

Definition InputType_value (t : InputType) : string :=
  match t with
  | OBJECT => "object"
  | LANDSCAPE => "landscape"
  | UNKNOWN => "unknown"
  end.

#[global] Instance JobStatus_eq_dec : EqDecision JobStatus.
Proof. solve_decision. Defined.

#[global] Instance InputType_eq_dec : EqDecision InputType.
Proof. solve_decision. Defined.

(** ** Fallback computers ([processor.py]) *)

(** The value written at pixel [(x, y)] by [generate_fallback_depth]. *)
Definition depth_value (center_x center_y : Z) (max_dist : float) (x y : Z)
    : PyResult Z :=
  dist ← math_sqrt (float_of_int ((x - center_x) ^ 2 + (y - center_y) ^ 2));
  ratio ← truediv dist max_dist;
  int_of_float (fmul (float_of_int 255) (fsub (float_of_int 1) ratio)).

Definition generate_fallback_depth (image : Image) : PyResult Image :=
  let '(width, height) := size image in
  depth ← Image_new "L" (width, height) 0;
  let center_x := width `div` 2 in
  let center_y := height `div` 2 in
  max_dist ← math_sqrt (float_of_int (center_x ^ 2 + center_y ^ 2));
  for_range height (fun y depth =>
    for_range width (fun x depth =>
      value ← depth_value center_x center_y max_dist x y;
      putpixel depth (x, y) value) depth) depth.

(** Whether pixel [(x, y)] lies in the ellipse of [generate_fallback_mask]. *)
Definition mask_inside (center_x center_y : Z) (radius_x radius_y : float)
    (x y : Z) : PyResult bool :=
  dx ← truediv (float_of_int (x - center_x)) radius_x;
  dy ← truediv (float_of_int (y - center_y)) radius_y;
  mret (fle (fadd (fmul dx dx) (fmul dy dy)) (float_of_int 1)).

Definition generate_fallback_mask (image : Image) : PyResult Image :=
  let '(width, height) := size image in
  mask ← Image_new "L" (width, height) 0;
  let center_x := width `div` 2 in
  let center_y := height `div` 2 in
  let radius_x := fmul (float_of_int width) lit_0_4 in
  let radius_y := fmul (float_of_int height) lit_0_4 in
  for_range height (fun y mask =>
    for_range width (fun x mask =>
      inside ← mask_inside center_x center_y radius_x radius_y x y;
      if inside : bool then putpixel mask (x, y) 255 else mret mask) mask) mask.

(** ** The job ledger ([services/database.py])

    The two tables are kept in memory: [jobs] is keyed by the primary key
    [id], [assets] is in insertion order.  A column holding the [value] of
    an enumeration member holds the member; a column holding the JSON text
    of a dictionary holds the dictionary.  A timestamp is a reading of the
    clock. *)

Module Database.

Record JobRow := mkJobRow {
  id : string;
  status : JobStatus;
  created_at : nat;
  updated_at : nat;
  input_type : option InputType;
  progress : Z;
  error : option string;
  original_filename : string;
  outputs : option (gmap string string)
}.

Record AssetRow := mkAssetRow {
  asset_id : string;
  asset_job_id : string;
  asset_type : string;
  asset_filename : string;
  content_type : string;
  asset_size : Z;
  metadata : option (gmap string Z);
  asset_created_at : nat
}.

(** One [column = ?] of the [UPDATE] statement with its parameter. *)
Inductive Assignment :=
  | set_status (s : JobStatus)
  | set_input_type (t : InputType)
  | set_progress (p : Z)
  | set_error (e : string)
  | set_outputs (o : gmap string string)
  | set_updated_at (t : nat).

Definition assign (r : JobRow) (a : Assignment) : JobRow :=
  match a with
  | set_status s =>
      mkJobRow (id r) s (created_at r) (updated_at r) (input_type r)
        (progress r) (error r) (original_filename r) (outputs r)
  | set_input_type t =>
      mkJobRow (id r) (status r) (created_at r) (updated_at r) (Some t)
        (progress r) (error r) (original_filename r) (outputs r)
  | set_progress p =>
      mkJobRow (id r) (status r) (created_at r) (updated_at r) (input_type r)
        p (error r) (original_filename r) (outputs r)
  | set_error e =>
      mkJobRow (id r) (status r) (created_at r) (updated_at r) (input_type r)
        (progress r) (Some e) (original_filename r) (outputs r)
  | set_outputs o =>
      mkJobRow (id r) (status r) (created_at r) (updated_at r) (input_type r)
        (progress r) (error r) (original_filename r) (Some o)
  | set_updated_at t =>
      mkJobRow (id r) (status r) (created_at r) t (input_type r)
        (progress r) (error r) (original_filename r) (outputs r)
  end.

(** [if x is not None: updates.append(...)] *)
Definition append_if {A : Type} (f : A -> Assignment) (x : option A)
    (updates : list Assignment) : list Assignment :=
  match x with
  | Some a => updates ++ [f a]
  | None => updates
  end.

(** [update_job]; [now] is [datetime.utcnow().isoformat()].  The result is
    the table after the statement and the returned boolean,
    [db.total_changes > 0]. *)
Definition update_job (now : nat) (job_id : string)
    (status : option JobStatus) (input_type : option InputType)
    (progress : option Z) (error : option string)
    (outputs : option (gmap string string))
    (jobs : gmap string JobRow) : gmap string JobRow * bool :=
  let updates := [] in
  let updates := append_if set_status status updates in
  let updates := append_if set_input_type input_type updates in
  let updates := append_if set_progress progress updates in
  let updates := append_if set_error error updates in
  let updates := append_if set_outputs outputs updates in
  match updates with
  | [] => (jobs, false)
  | _ =>
      let updates := updates ++ [set_updated_at now] in
      match jobs !! job_id with
      | Some row => (<[job_id := foldl assign row updates]> jobs, true)
      | None => (jobs, false)
      end
  end.

(** [get_job] *)
Definition get_job (job_id : string) (jobs : gmap string JobRow)
    : option JobRow :=
  jobs !! job_id.

End Database.
Export Database.

(** ** The world the pipeline runs in

    [World] is the mutable state: both tables, the files of the blob
    store, the clock, the source of fresh identifiers and the console.
    Two more fields record what happened, for the statements below: every
    call of [update_job] that returned, with the row it left, and every
    call of a function that sends requests to a remote provider. *)

Module Runtime.

(** The optional arguments of one [update_job] call. *)
Record JobUpdate := mkUpdate {
  u_status : option JobStatus;
  u_input_type : option InputType;
  u_progress : option Z;
  u_error : option string;
  u_outputs : option (gmap string string)
}.

Record LedgerWrite := mkWrite {
  lw_job : string;
  lw_args : JobUpdate;
  lw_time : nat;
  lw_row : option JobRow
}.

Record World := mkWorld {
  jobs : gmap string JobRow;
  assets : list AssetRow;
  files : gmap string string;
  clock : nat;
  uuid_source : nat -> string;
  uuid_next : nat;
  stdout : list string;
  ledger_log : list LedgerWrite;
  remote_calls : list string
}.

Definition M (A : Type) : Type := World -> PyResult A * World.

#[global] Instance M_ret : MRet M := fun A a w => (Ok a, w).
#[global] Instance M_bind : MBind M := fun A B f m w =>
  match m w with
  | (Ok a, w') => f a w'
  | (Raise e, w') => (Raise e, w')
  end.

Definition lift {A : Type} (r : PyResult A) : M A := fun w => (r, w).

Definition raise {A : Type} (e : PyExc) : M A := lift (Raise e).

(** [try: body  except Exception as e: handler(e)] *)
Definition try_except {A : Type} (body : M A) (handler : PyExc -> M A) : M A :=
  fun w =>
    match body w with
    | (Ok a, w') => (Ok a, w')
    | (Raise e, w') => handler e w'
    end.

(** [datetime.utcnow()] *)
Definition utcnow : M nat := fun w =>
  (Ok (clock w),
   mkWorld (jobs w) (assets w) (files w) (S (clock w)) (uuid_source w)
     (uuid_next w) (stdout w) (ledger_log w) (remote_calls w)).

(** [str(uuid.uuid4())] *)
Definition uuid4 : M string := fun w =>
  (Ok (uuid_source w (uuid_next w)),
   mkWorld (jobs w) (assets w) (files w) (clock w) (uuid_source w)
     (S (uuid_next w)) (stdout w) (ledger_log w) (remote_calls w)).

Definition print (line : string) : M unit := fun w =>
  (Ok tt,
   mkWorld (jobs w) (assets w) (files w) (clock w) (uuid_source w)
     (uuid_next w) (stdout w ++ [line]) (ledger_log w) (remote_calls w)).

(** A call of a remote provider, with the outcome the provider has. *)
Definition remote {A : Type} (name : string) (outcome : PyResult A) : M A :=
  fun w =>
    (outcome,
     mkWorld (jobs w) (assets w) (files w) (clock w) (uuid_source w)
       (uuid_next w) (stdout w) (ledger_log w) (remote_calls w ++ [name])).

Definition path_exists (path : string) : M bool := fun w =>
  (Ok (bool_decide (is_Some (files w !! path))), w).

Definition write_file (path data : string) : M unit := fun w =>
  (Ok tt,
   mkWorld (jobs w) (assets w) (<[path := data]> (files w)) (clock w)
     (uuid_source w) (uuid_next w) (stdout w) (ledger_log w) (remote_calls w)).

(** With every argument [None], [update_job] returns before it connects
    to the database. *)
Definition nothing_to_update (u : JobUpdate) : bool :=
  match u with
  | mkUpdate None None None None None => true
  | _ => false
  end.

(** [await db.update_job(job_id, ...)]; [fault] is the error of the
    database at a time, if it has one.  The call connects, executes and
    commits, and each of the three can raise: then nothing is written and
    the error is the result of the call. *)
Definition db_update_job (fault : nat -> option PyExc) (job_id : string)
    (u : JobUpdate) : M bool :=
  fun w =>
    let now := clock w in
    match (if nothing_to_update u then None else fault now) with
    | Some e =>
        (Raise e,
         mkWorld (jobs w) (assets w) (files w) (S (clock w)) (uuid_source w)
           (uuid_next w) (stdout w) (ledger_log w) (remote_calls w))
    | None =>
        let '(jobs', changed) :=
          update_job now job_id (u_status u) (u_input_type u) (u_progress u)
            (u_error u) (u_outputs u) (jobs w) in
        (Ok changed,
         mkWorld jobs' (assets w) (files w) (S (clock w)) (uuid_source w)
           (uuid_next w) (stdout w)
           (ledger_log w ++ [mkWrite job_id u now (get_job job_id jobs')])
           (remote_calls w))
    end.

(** [INSERT INTO jobs ...]: the primary key must be new. *)
Definition insert_job (row : JobRow) : M unit := fun w =>
  match jobs w !! id row with
  | Some _ =>
      (Raise (mkExc IntegrityError "UNIQUE constraint failed: jobs.id"), w)
  | None =>
      (Ok tt,
       mkWorld (<[id row := row]> (jobs w)) (assets w) (files w) (clock w)
         (uuid_source w) (uuid_next w) (stdout w) (ledger_log w)
         (remote_calls w))
  end.

(** [INSERT INTO assets ...] *)
Definition insert_asset (row : AssetRow) : M unit := fun w =>
  if bool_decide (asset_id row ∈ map asset_id (assets w)) then
    (Raise (mkExc IntegrityError "UNIQUE constraint failed: assets.id"), w)
  else
    (Ok tt,
     mkWorld (jobs w) (assets w ++ [row]) (files w) (clock w)
       (uuid_source w) (uuid_next w) (stdout w) (ledger_log w)
       (remote_calls w)).

(** [await db.create_job(filename, input_type_hint)]; the inserted row has
    the column defaults [progress = 0], [error] and [outputs] null. *)
Definition db_create_job (filename : string) (input_type_hint : option InputType)
    : M JobRow :=
  job_id ← uuid4;
  now ← utcnow;
  let row := mkJobRow job_id PENDING now now input_type_hint 0 None filename None in
  _ ← insert_job row;
  mret row.

(** [await db.create_asset(...)]; [json.dumps(metadata) if metadata else
    None] turns an empty dictionary into null. *)
Definition db_create_asset (job_id asset_type filename content_type : string)
    (size : Z) (metadata : option (gmap string Z)) : M string :=
  asset_id ← uuid4;
  now ← utcnow;
  let metadata :=
    match metadata with
    | Some d => if bool_decide (d = ∅) then None else Some d
    | None => None
    end in
  _ ← insert_asset
        (mkAssetRow asset_id job_id asset_type filename content_type size
           metadata now);
  mret asset_id.

End Runtime.
Export Runtime.

(** ** Blob store ([storage/local.py]) *)

Module Storage.

(** [a / b] of [pathlib] for a relative path [a] and a plain name [b]:
    the components the service writes itself ("uploads", "assets", a job
    id it drew, an asset type with its extension).  For other operands
    [pathlib] and the file system do more: an absolute [b] replaces [a],
    an empty [b] or ["."] gives [a] itself, [".."] names the parent and a
    [b] with ["/"] a deeper path; statements about a name the client
    chooses take it plain. *)
Definition path_join (a b : string) : string := a +:+ "/" +:+ b.

(** A plain name: one path component that names an entry of its own
    directory, so not empty, neither ["."] nor [".."], and without a
    separator or a null character. *)
Fixpoint has_separator (s : string) : bool :=
  match s with
  | EmptyString => false
  | String c rest =>
      Ascii.eqb c "/"%char || Ascii.eqb c "000"%char || has_separator rest
  end.

Definition plain_name (s : string) : bool :=
  negb (String.eqb s "") && negb (String.eqb s ".") &&
  negb (String.eqb s "..") && negb (has_separator s).

Definition STORAGE_ROOT : string := "data/storage".
Definition UPLOADS_DIR : string := path_join STORAGE_ROOT "uploads".
Definition ASSETS_DIR : string := path_join STORAGE_ROOT "assets".

Definition get_asset_path (job_id asset_type extension : string) : string :=
  path_join (path_join ASSETS_DIR job_id) (asset_type +:+ extension).

(** [save_asset]; [fault] is the error of the file system for that path,
    if it has one. *)
Definition save_asset (fault : string -> option PyExc)
    (job_id asset_type data extension : string) : M string :=
  let path := get_asset_path job_id asset_type extension in
  match fault path with
  | Some e => raise e
  | None => _ ← write_file path data; mret path
  end.

End Storage.
Export Storage.

(** ** The pipeline ([services/processor.py]) *)

Module Processor.

(** What the process is configured with and what is outside it: the two
    credentials, the outcome of each remote call, the codecs of PIL, the
    faults of the file system and the faults of the database. *)
Record Env := mkEnv {
  REPLICATE_API_TOKEN : option string;
  HF_API_TOKEN : option string;
  hf_classification : Image -> PyResult InputType;
  replicate_depth : Image -> PyResult Image;
  hf_depth : Image -> PyResult Image;
  decode : string -> PyResult Image;
  encode_png : Image -> PyResult string;
  fs_fault : string -> option PyExc;
  db_fault : nat -> option PyExc
}.

(** [Image.open(path)] *)
Definition Image_open (env : Env) (path : string) : M Image := fun w =>
  match files w !! path with
  | Some data => (decode env data, w)
  | None =>
      (Raise (mkExc FileNotFoundError
                ("[Errno 2] No such file or directory: " +:+ path)), w)
  end.

(** [image.convert(mode)]; the pixel data of an uploaded image is opaque. *)
Definition convert (m : string) (image : Image) : Image :=
  mkImage m (size image) (im image).

(** [image.save(buffer, format="PNG"); buffer.getvalue()] *)
Definition save_png (env : Env) (image : Image) : M string :=
  lift (encode_png env image).

Definition len (data : string) : Z := Z.of_nat (String.length data).

Definition classify_with_hf (env : Env) (image : Image) : M InputType :=
  remote "classify_with_hf" (hf_classification env image).

Definition generate_depth_replicate (env : Env) (image : Image) : M Image :=
  remote "generate_depth_replicate" (replicate_depth env image).

Definition generate_depth_hf (env : Env) (image : Image) : M Image :=
  remote "generate_depth_hf" (hf_depth env image).

Definition classify_image (env : Env) (image : Image) : M InputType :=
  let '(width, height) := size image in
  aspect_ratio ← lift (int_truediv width height);
  if flt lit_1_5 aspect_ratio then mret LANDSCAPE
  else if flt aspect_ratio lit_0_75 then mret OBJECT
  else
    r ← (if truthy (HF_API_TOKEN env) then
           try_except (t ← classify_with_hf env image; mret (Some t))
             (fun _ => mret None)
         else mret None);
    match r with
    | Some t => mret t
    | None => mret OBJECT
    end.

Definition generate_depth_map (env : Env) (image : Image) : M Image :=
  r ← (if truthy (REPLICATE_API_TOKEN env) then
         try_except (d ← generate_depth_replicate env image; mret (Some d))
           (fun e =>
              _ ← print ("Replicate depth failed: " +:+ str e
                          +:+ ", using fallback");
              mret None)
       else mret None);
  match r with
  | Some d => mret d
  | None =>
      r ← (if truthy (HF_API_TOKEN env) then
             try_except (d ← generate_depth_hf env image; mret (Some d))
               (fun e =>
                  _ ← print ("HF depth failed: " +:+ str e
                              +:+ ", using fallback");
                  mret None)
           else mret None);
      match r with
      | Some d => mret d
      | None => lift (generate_fallback_depth image)
      end
  end.

Definition generate_mask_replicate (image : Image) : M Image :=
  lift (generate_fallback_mask image).

Definition generate_mask (env : Env) (image : Image) : M Image :=
  r ← (if truthy (REPLICATE_API_TOKEN env) then
         try_except (m ← generate_mask_replicate image; mret (Some m))
           (fun e =>
              _ ← print ("Replicate mask failed: " +:+ str e
                          +:+ ", using fallback");
              mret None)
       else mret None);
  match r with
  | Some m => mret m
  | None => lift (generate_fallback_mask image)
  end.

Definition no_update : JobUpdate := mkUpdate None None None None None.

(** The six forms of [update_job] call the pipeline makes. *)
Definition upd_processing : JobUpdate :=
  mkUpdate (Some PROCESSING) None (Some 10) None None.
Definition upd_progress (p : Z) : JobUpdate :=
  mkUpdate None None (Some p) None None.
Definition upd_classified (t : InputType) : JobUpdate :=
  mkUpdate None (Some t) (Some 30) None None.
Definition upd_completed (outputs : gmap string string) : JobUpdate :=
  mkUpdate (Some COMPLETED) None (Some 100) None (Some outputs).
Definition upd_failed (e : PyExc) : JobUpdate :=
  mkUpdate (Some FAILED) None None (Some (str e)) None.

Definition size_metadata (width height : Z) : gmap string Z :=
  <["height" := height]> (<["width" := width]> ∅).

(** Encode an image as PNG, store it and record the asset. *)
Definition store_asset (env : Env) (job_id asset_type : string)
    (image : Image) (width height : Z) : M string :=
  buffer ← save_png env image;
  _ ← save_asset (fs_fault env) job_id asset_type buffer ".png";
  db_create_asset job_id asset_type (asset_type +:+ ".png") "image/png"
    (len buffer) (Some (size_metadata width height)).

Definition process_image (env : Env) (job_id filename : string)
    (input_type_hint : option InputType) : M unit :=
  try_except
    (_ ← db_update_job (db_fault env) job_id upd_processing;
     let upload_path := path_join (path_join UPLOADS_DIR job_id) filename in
     found ← path_exists upload_path;
     _ ← (if found : bool then mret tt
          else raise (mkExc FileNotFoundError
                        ("Upload not found: " +:+ upload_path)));
     image ← Image_open env upload_path;
     let '(width, height) := size image in
     _ ← db_update_job (db_fault env) job_id (upd_progress 20);
     input_type ← match input_type_hint with
                  | Some hint => mret hint
                  | None => classify_image env image
                  end;
     _ ← db_update_job (db_fault env) job_id (upd_classified input_type);
     _ ← db_update_job (db_fault env) job_id (upd_progress 40);
     depth_image ← generate_depth_map env image;
     _ ← db_update_job (db_fault env) job_id (upd_progress 60);
     color_asset_id ←
       store_asset env job_id "color" (convert "RGB" image) width height;
     depth_asset_id ←
       store_asset env job_id "depth" depth_image width height;
     let outputs :=
       <["depth" := depth_asset_id]> (<["color" := color_asset_id]> ∅) in
     outputs ←
       (if bool_decide (input_type = OBJECT) then
          _ ← db_update_job (db_fault env) job_id (upd_progress 80);
          mask_image ← generate_mask env image;
          mask_asset_id ←
            store_asset env job_id "mask" mask_image width height;
          mret (<["mask" := mask_asset_id]> outputs)
        else mret outputs);
     _ ← db_update_job (db_fault env) job_id (upd_completed outputs);
     mret tt)
    (fun e =>
       _ ← db_update_job (db_fault env) job_id (upd_failed e);
       raise e).

End Processor.
Export Processor.

(** ** Vocabulary of the statements *)

Module Vocabulary.

(** [(x', y')] comes before [(x, y)] in row-major order. *)
Definition before (x' y' x y : Z) : bool :=
  (y' <? y) || ((y' =? y) && (x' <? x)).

(** An 8-bit [w]x[h] image being painted with [g]: the pixels before
    [(x, y)] hold [g], the others are still 0. *)
Definition painted (w h : Z) (g : Z -> Z -> Z) (x y : Z) (i : Image) : Prop :=
  mode i = "L" /\ size i = (w, h) /\ length (im i) = Z.to_nat (w * h) /\
  forall x' y', 0 <= x' < w -> 0 <= y' < h ->
    im i !! Z.to_nat (y' * w + x') = Some (if before x' y' x y then g x' y' else 0).



(** An image of a given size; its content does not matter to the
    fallback computers. *)
Definition blank (w h : Z) : Image := mkImage "RGB" (w, h) [].

End Vocabulary.
Export Vocabulary.

(** ** Vocabulary of the provider chains and the classifier *)

Module ChainVocabulary.

(** The ratio [width / height] the classifier computes. *)
Definition aspect_ratio (image : Image) : PyResult float :=
  int_truediv (width image) (height image).

(** The attempt of a provider: made only when its credential is set. *)
Definition attempt {A : Type} (token : option string) (outcome : PyResult A)
    : option A :=
  if truthy token then
    match outcome with
    | Ok a => Some a
    | Raise _ => None
    end
  else None.

(** The depth chain in the words of the specification: Replicate first,
    then Hugging Face, each only when configured and skipped when it
    fails, then the local fallback. *)
Definition depth_chain (env : Env) (image : Image) : PyResult Image :=
  match attempt (REPLICATE_API_TOKEN env) (replicate_depth env image) with
  | Some d => Ok d
  | None =>
      match attempt (HF_API_TOKEN env) (hf_depth env image) with
      | Some d => Ok d
      | None => generate_fallback_depth image
      end
  end.

(** The remote calls the depth chain makes, in order. *)
Definition depth_chain_calls (env : Env) (image : Image) : list string :=
  if truthy (REPLICATE_API_TOKEN env) then
    "generate_depth_replicate" ::
    match replicate_depth env image with
    | Ok _ => []
    | Raise _ =>
        if truthy (HF_API_TOKEN env) then ["generate_depth_hf"] else []
    end
  else if truthy (HF_API_TOKEN env) then ["generate_depth_hf"] else [].

End ChainVocabulary.
Export ChainVocabulary.

(** ** Vocabulary of the pipeline statements *)

Module PipelineVocabulary.

(** Hoare triples for [M]: from a world with [P], [m] returns [a] in a
    world with [Q a], or raises [e] in a world with [E e]. *)
Definition triple {A : Type} (P : World -> Prop) (m : M A)
    (Q : A -> World -> Prop) (E : PyExc -> World -> Prop) : Prop :=
  forall w, P w ->
    match m w with
    | (Ok a, w') => Q a w'
    | (Raise e, w') => E e w'
    end.

(** [m] touches neither table nor the record of ledger writes. *)
Definition frame {A : Type} (m : M A) : Prop :=
  forall w,
    jobs (snd (m w)) = jobs w /\
    assets (snd (m w)) = assets w /\
    ledger_log (snd (m w)) = ledger_log w.

(** The assignments of an [update_job] call and the row the call leaves,
    given the row it finds. *)
Definition assignments (u : JobUpdate) : list Assignment :=
  append_if set_outputs (u_outputs u)
    (append_if set_error (u_error u)
       (append_if set_progress (u_progress u)
          (append_if set_input_type (u_input_type u)
             (append_if set_status (u_status u) [])))).

Definition update_row (now : nat) (u : JobUpdate) (row : JobRow) : JobRow :=
  match assignments u with
  | [] => row
  | updates => foldl assign row (updates ++ [set_updated_at now])
  end.

(** The [update_job] calls of a run before the last one, for input type
    [t], and the progress values of a whole run. *)
Definition pre_updates (t : InputType) : list JobUpdate :=
  [upd_processing; upd_progress 20; upd_classified t; upd_progress 40;
   upd_progress 60] ++
  (if bool_decide (t = OBJECT) then [upd_progress 80] else []).

Definition progress_steps (t : InputType) : list Z :=
  [10; 20; 30; 40; 60] ++ (if bool_decide (t = OBJECT) then [80] else []) ++ [100].

(** The asset types and the keys of [outputs] of a completed run. *)
Definition asset_types (t : InputType) : list string :=
  ["color"; "depth"] ++ (if bool_decide (t = OBJECT) then ["mask"] else []).

Definition output_keys (t : InputType) : gset string :=
  if bool_decide (t = OBJECT) then {["color"; "depth"; "mask"]}
  else {["color"; "depth"]}.

(** Replaying timed updates of one job on the jobs table: the ledger
    writes recorded and the table reached. *)
Fixpoint replay (job_id : string) (jobs : gmap string JobRow)
    (uts : list (JobUpdate * nat)) : list LedgerWrite * gmap string JobRow :=
  match uts with
  | [] => ([], jobs)
  | (u, t) :: rest =>
      let jobs' :=
        fst (update_job t job_id (u_status u) (u_input_type u) (u_progress u)
               (u_error u) (u_outputs u) jobs) in
      let '(writes, jobs'') := replay job_id jobs' rest in
      (mkWrite job_id u t (get_job job_id jobs') :: writes, jobs'')
  end.

(** The state of a run started in [w0] after the updates [us] of the job
    and the creation of assets of types [kinds]. *)
Definition run_state (w0 : World) (job_id : string) (us : list JobUpdate)
    (kinds : list string) (w : World) : Prop :=
  exists uts rows,
    map fst uts = us /\
    ledger_log w = ledger_log w0 ++ fst (replay job_id (jobs w0) uts) /\
    jobs w = snd (replay job_id (jobs w0) uts) /\
    assets w = assets w0 ++ rows /\
    map asset_type rows = kinds /\
    Forall (fun r => asset_job_id r = job_id) rows.

(** A run that raised stopped after some of the updates; a run that
    returned made them all, the last one with the assets' identifiers. *)
Definition failed_state (w0 : World) (job_id : string) (w : World) : Prop :=
  exists t us kinds,
    us `prefix_of` pre_updates t /\ run_state w0 job_id us kinds w.

Definition completed_state (w0 : World) (job_id : string)
    (hint : option InputType) (w : World) : Prop :=
  exists t outs,
    (forall h, hint = Some h -> t = h) /\
    dom outs = output_keys t /\
    run_state w0 job_id (pre_updates t ++ [upd_completed outs])
      (asset_types t) w.

(** The row of the job after timed updates, and the value the updates
    leave in a column: the last one passed, else the old one. *)
Definition final_row (row : JobRow) (uts : list (JobUpdate * nat)) : JobRow :=
  foldl (fun r ut => update_row (snd ut) (fst ut) r) row uts.

Definition latest {A : Type} (f : JobUpdate -> option A) (us : list JobUpdate)
    (old : option A) : option A :=
  foldl (fun a u => match f u with Some x => Some x | None => a end) old us.

(** The progress values passed to the ledger and the progress values a
    poll sees after each write. *)
Definition written_progress (writes : list LedgerWrite) : list Z :=
  omap (fun lw => u_progress (lw_args lw)) writes.

Definition observed_progress (writes : list LedgerWrite) : list Z :=
  omap (fun lw => progress <$> lw_row lw) writes.

(** Each element is at most the next one. *)
Fixpoint chain (p : Z) (l : list Z) : Prop :=
  match l with
  | [] => True
  | x :: r => p <= x /\ chain x r
  end.

End PipelineVocabulary.
Export PipelineVocabulary.

(** ** The runs of the examples *)

Module Examples.

(** A process with the Replicate credential whose depth provider answers
    with the image it is sent; every upload decodes to a 2 x 2 image. *)
Definition provider_down {A : Type} : PyResult A :=
  Raise (mkExc HTTPError "503 Service Unavailable").

Definition example_env : Env :=
  mkEnv (Some "r8_token") None
    (fun _ => provider_down) (fun image => Ok image) (fun _ => provider_down)
    (fun _ => Ok (blank 2 2)) (fun _ => Ok "PNG") (fun _ => None)
    (fun _ => None).

(** The row [create_job] inserts, and a world that holds it. *)
Definition new_job : JobRow :=
  mkJobRow "job-0" PENDING 0 0 None 0 None "a.png" None.

Definition example_uuid (n : nat) : string :=
  "asset-" +:+ String (Ascii.ascii_of_nat (48 + n)) EmptyString.

Definition example_world (files : gmap string string) : World :=
  mkWorld {["job-0" := new_job]} [] files 1 example_uuid 0 [] [] [].

Definition uploaded : gmap string string :=
  {[path_join (path_join UPLOADS_DIR "job-0") "a.png" := "raw"]}.

End Examples.
Export Examples.

(** ** Reading the ledger ([services/database.py]) *)

Module Db.

(** [get_job], [get_asset] and [get_assets_by_job] as computations; the
    dictionary returned for a row is the row ([get_job] leaves out
    [original_filename], the two asset readers [created_at]). *)
Definition get_job (job_id : string) : M (option JobRow) := fun w =>
  (Ok (Database.get_job job_id (jobs w)), w).

(** [SELECT * FROM assets WHERE id = ?] with [fetchone]: the first row. *)
Definition select_asset (asset_id0 : string) (assets : list AssetRow)
    : option AssetRow :=
  head (filter (fun r => asset_id r = asset_id0) assets).

Definition get_asset (asset_id0 : string) : M (option AssetRow) := fun w =>
  (Ok (select_asset asset_id0 (assets w)), w).

(** [SELECT * FROM assets WHERE job_id = ?] with [fetchall]. *)
Definition select_assets_by_job (job_id : string) (assets : list AssetRow)
    : list AssetRow :=
  filter (fun r => asset_job_id r = job_id) assets.

Definition get_assets_by_job (job_id : string) : M (list AssetRow) := fun w =>
  (Ok (select_assets_by_job job_id (assets w)), w).

End Db.

(** ** Reading and clearing the blob store ([storage/local.py])

    The store is the map from the path of a file to its bytes, so a
    directory exists when a file lies under it; [mkdir] leaves nothing. *)

Module Local.

(** [path] lies under the directory [dir]. *)
Definition under (dir path : string) : bool :=
  String.prefix (dir +:+ "/") path.

Definition contents (dir : string) (files : gmap string string)
    : gmap string string :=
  filter (fun kv => under dir kv.1 = true) files.

(** [dir.exists()] *)
Definition dir_exists (dir : string) : M bool := fun w =>
  (Ok (bool_decide (contents dir (files w) <> ∅)), w).

(** [shutil.rmtree(dir)] *)
Definition rmtree (dir : string) : M unit := fun w =>
  (Ok tt,
   mkWorld (jobs w) (assets w)
     (filter (fun kv => under dir kv.1 = false) (files w)) (clock w)
     (uuid_source w) (uuid_next w) (stdout w) (ledger_log w) (remote_calls w)).

Definition get_upload_path (job_id filename : string) : string :=
  path_join (path_join UPLOADS_DIR job_id) filename.

(** [save_upload]; [fault] is the error of the file system for that path,
    if it has one, and [file] the bytes of the uploaded file. *)
Definition save_upload (fault : string -> option PyExc)
    (job_id filename file : string) : M string :=
  let path := get_upload_path job_id filename in
  match fault path with
  | Some e => raise e
  | None => _ ← write_file path file; mret path
  end.

Definition get_upload (job_id filename : string) : M (option string) :=
  let path := get_upload_path job_id filename in
  found ← path_exists path;
  mret (if found : bool then Some path else None).

Definition get_asset (job_id asset_type extension : string)
    : M (option string) :=
  let path := get_asset_path job_id asset_type extension in
  found ← path_exists path;
  mret (if found : bool then Some path else None).

Definition get_asset_by_id (asset_id job_id filename : string)
    : M (option string) :=
  let job_dir := path_join ASSETS_DIR job_id in
  there ← dir_exists job_dir;
  if negb there then mret None
  else
    let path := path_join job_dir filename in
    found ← path_exists path;
    mret (if found : bool then Some path else None).

Definition delete_job_files (job_id : string) : M unit :=
  let upload_dir := path_join UPLOADS_DIR job_id in
  let asset_dir := path_join ASSETS_DIR job_id in
  there ← dir_exists upload_dir;
  _ ← (if there : bool then rmtree upload_dir else mret tt);
  there ← dir_exists asset_dir;
  if there : bool then rmtree asset_dir else mret tt.

End Local.

(** ** The routes ([routes/jobs.py], [routes/assets.py])

    A route returns its response or raises [HTTPException]; any other
    exception is a server error and stays a [Raise]. *)

Module Routes.

Inductive HTTPResult (A : Type) :=
  | Response (a : A)
  | HTTPException (status_code : Z) (detail : string).
Arguments Response {A} a.
Arguments HTTPException {A} status_code detail.

(** [UploadFile]: [filename], [content_type] and the bytes of [file]. *)
Record UploadFile := mkUploadFile {
  upload_filename : option string;
  upload_content_type : option string;
  upload_file : string
}.

(** [JobResponse]; [progress] is declared [Field(0, ge=0, le=100)]. *)
Record JobResponse := mkJobResponse {
  r_id : string;
  r_status : JobStatus;
  r_created_at : nat;
  r_updated_at : nat;
  r_input_type : option InputType;
  r_progress : Z;
  r_error : option string;
  r_outputs : option (gmap string string)
}.

(** [JobResponse] built from the dictionary of a job; the error of the
    validation is a [ValueError]. *)
Definition JobResponse_new (job : JobRow) : PyResult JobResponse :=
  if (0 <=? progress job) && (progress job <=? 100) then
    Ok (mkJobResponse (id job) (status job) (created_at job) (updated_at job)
          (input_type job) (progress job) (error job) (outputs job))
  else Raise (mkExc ValueError "1 validation error for JobResponse").

(** [AssetResponse] and its construction from the dictionary of an asset. *)
Record AssetResponse := mkAssetResponse {
  a_id : string;
  a_job_id : string;
  a_asset_type : string;
  a_filename : string;
  a_content_type : string;
  a_size : Z;
  a_metadata : option (gmap string Z)
}.

Definition AssetResponse_new (asset : AssetRow) : AssetResponse :=
  mkAssetResponse (asset_id asset) (asset_job_id asset) (asset_type asset)
    (asset_filename asset) (content_type asset) (asset_size asset)
    (metadata asset).

Record FileResponse := mkFileResponse {
  f_path : string;
  f_media_type : string;
  f_filename : string
}.

(** [s or d] on an optional string. *)
Definition or_else (s : option string) (d : string) : string :=
  match s with
  | Some t => if String.eqb t "" then d else t
  | None => d
  end.

(** [InputType(value)]: the member with that value. *)
Definition InputType_of_value (value : string) : PyResult InputType :=
  if String.eqb value "object" then Ok OBJECT
  else if String.eqb value "landscape" then Ok LANDSCAPE
  else if String.eqb value "unknown" then Ok UNKNOWN
  else Raise (mkExc ValueError ("'" +:+ value +:+ "' is not a valid InputType")).

(** An entry of [background_tasks]: the arguments of [process_image]. *)
Record Task := mkTask {
  task_job_id : string;
  task_filename : string;
  task_hint : option InputType
}.


(** [POST /jobs] *)
Definition create_job (env : Env) (file : UploadFile)
    (input_type_hint : option string)
    : M (HTTPResult (JobResponse * list Task)) :=
  if negb (truthy (upload_content_type file))
     || negb (String.prefix "image/" (default "" (upload_content_type file)))
  then mret (HTTPException 400 "File must be an image")
  else
    let parsed :=
      if truthy input_type_hint then
        match InputType_of_value (default "" input_type_hint) with
        | Ok t => Response (Some t)
        | Raise _ =>
            HTTPException 400 "input_type_hint must be 'object' or 'landscape'"
        end
      else Response None in
    match parsed with
    | HTTPException code detail => mret (HTTPException code detail)
    | Response hint =>
        job ← db_create_job (or_else (upload_filename file) "unknown") hint;
        let job_id := id job in
        _ ← Local.save_upload (fs_fault env) job_id
              (or_else (upload_filename file) "input.png") (upload_file file);
        let background_tasks :=
          [mkTask job_id (or_else (upload_filename file) "input.png") hint] in
        response ← lift (JobResponse_new job);
        mret (Response (response, background_tasks))
    end.

(** [GET /jobs/{job_id}] *)
Definition get_job (job_id : string) : M (HTTPResult JobResponse) :=
  job ← Db.get_job job_id;
  match job with
  | None => mret (HTTPException 404 "Job not found")
  | Some job => response ← lift (JobResponse_new job); mret (Response response)
  end.

(** [DELETE /jobs/{job_id}]; the response is the pair of its two values. *)
Definition delete_job (job_id : string) : M (HTTPResult (string * string)) :=
  job ← Db.get_job job_id;
  match job with
  | None => mret (HTTPException 404 "Job not found")
  | Some _ => mret (Response ("deleted", job_id))
  end.

(** [GET /assets/{asset_id}] *)
Definition get_asset_info (asset_id : string) : M (HTTPResult AssetResponse) :=
  asset ← Db.get_asset asset_id;
  match asset with
  | None => mret (HTTPException 404 "Asset not found")
  | Some asset => mret (Response (AssetResponse_new asset))
  end.

(** [GET /assets/{asset_id}/download] *)
Definition download_asset (asset_id : string) : M (HTTPResult FileResponse) :=
  asset ← Db.get_asset asset_id;
  match asset with
  | None => mret (HTTPException 404 "Asset not found")
  | Some asset =>
      file_path ← Local.get_asset_by_id asset_id (asset_job_id asset)
                    (asset_filename asset);
      match file_path with
      | None => mret (HTTPException 404 "Asset file not found")
      | Some file_path =>
          mret (Response (mkFileResponse file_path (content_type asset)
                            (asset_filename asset)))
      end
  end.

(** [GET /assets/job/{job_id}] *)
Definition get_job_assets (job_id : string)
    : M (HTTPResult (string * list AssetResponse)) :=
  assets ← Db.get_assets_by_job job_id;
  mret (Response (job_id, map AssetResponse_new assets)).

End Routes.

(** ** Vocabulary of the statements about the whole service *)

Module ServiceVocabulary.

(** Every run of [m] takes a world to one related to it by [R], whether
    it returns or raises. *)
Definition respects (R : World -> World -> Prop) {A : Type} (m : M A) : Prop :=
  forall w, R w (snd (m w)).

(** The asset types of the pipeline and the files it may write for a job. *)
Definition asset_kinds : list string := ["color"; "depth"; "mask"].

Definition asset_file (job_id path : string) : Prop :=
  exists kind, kind ∈ asset_kinds /\ path = get_asset_path job_id kind ".png".

(** The rows of the other jobs are the same and no row came or went. *)
Definition same_other_jobs (job_id : string) (w w' : World) : Prop :=
  dom (jobs w') = dom (jobs w) /\
  forall other, other <> job_id -> jobs w' !! other = jobs w !! other.

(** No file was removed and only asset files of the job were written. *)
Definition files_kept (job_id : string) (w w' : World) : Prop :=
  (forall path, is_Some (files w !! path) -> is_Some (files w' !! path)) /\
  (forall path, ~ asset_file job_id path -> files w' !! path = files w !! path).

(** The remote calls made are all among [allowed]. *)
Definition calls_among (allowed : list string) (w w' : World) : Prop :=
  exists calls,
    remote_calls w' = remote_calls w ++ calls /\
    Forall (fun name => name ∈ allowed) calls.

(** Rows of the job were appended to the asset table, and identifiers
    that were distinct still are. *)
Definition assets_appended (job_id : string) (w w' : World) : Prop :=
  exists rows,
    assets w' = assets w ++ rows /\
    Forall (fun r => asset_job_id r = job_id) rows /\
    (NoDup (map asset_id (assets w)) -> NoDup (map asset_id (assets w'))).

(** The asset [aid] of type [kind] is recorded for the job and its file is
    in the store under the recorded name. *)
Definition stored (job_id kind aid : string) (w : World) : Prop :=
  exists r,
    r ∈ assets w /\ asset_id r = aid /\ asset_job_id r = job_id /\
    asset_type r = kind /\ asset_filename r = kind +:+ ".png" /\
    content_type r = "image/png" /\
    is_Some (files w !! path_join (path_join ASSETS_DIR job_id) (asset_filename r)).

(** What every step of a run of the job keeps of the store and the asset
    table. *)
Definition kept (job_id : string) (w w' : World) : Prop :=
  files_kept job_id w w' /\ assets_appended job_id w w'.

(** The last ledger write set the job Completed with [outs], and every
    asset [outs] names is stored. *)
Definition completed_with_stored (job_id : string) (w : World) : Prop :=
  exists outs lw,
    last (ledger_log w) = Some lw /\
    lw_args lw = upd_completed outs /\
    forall kind aid, outs !! kind = Some aid -> stored job_id kind aid w.

(** The remote calls a configuration allows a run with a given hint. *)
Definition allowed_calls (env : Env) (hint : option InputType) : list string :=
  (if truthy (REPLICATE_API_TOKEN env) then ["generate_depth_replicate"] else []) ++
  (if truthy (HF_API_TOKEN env) then
     ["generate_depth_hf"] ++
     match hint with None => ["classify_with_hf"] | Some _ => [] end
   else []).

(** The error and the outputs of a row go with its status: an error
    exactly when Failed, outputs exactly when Completed. *)
Definition error_and_outputs_match (row : JobRow) : Prop :=
  (status row = FAILED <-> is_Some (error row)) /\
  (status row = COMPLETED <-> is_Some (outputs row)).

(** [env] with other outcomes of the three remote providers. *)
Definition with_providers (env : Env)
    (classification : Image -> PyResult InputType)
    (depth_replicate depth_hf : Image -> PyResult Image) : Env :=
  mkEnv (REPLICATE_API_TOKEN env) (HF_API_TOKEN env) classification
    depth_replicate depth_hf (decode env) (encode_png env) (fs_fault env)
    (db_fault env).

End ServiceVocabulary.
Export ServiceVocabulary.

(** * Properties *)

(** ** Rounding never loses a non-zero number

    [binary_round_aux] shifts a mantissa right until it has 53 digits,
    which leaves it positive as long as the exponent is not below the
    least one. *)

Section Rounding.

Lemma shr_1_m mrs : 0 <= shr_m mrs -> shr_m (shr_1 mrs) = shr_m mrs / 2.
Proof.
  destruct mrs as [m r s]; simpl. intros Hm.
  destruct m as [|p|p]; try lia; [reflexivity|].
  destruct p as [p|p|]; simpl.
  - rewrite Pos2Z.inj_xI. apply Z.div_unique with 1; lia.
  - rewrite Pos2Z.inj_xO. apply Z.div_unique with 0; lia.
  - reflexivity.
Qed.

Lemma iter_pos_shr_1_m n : forall mrs,
  0 <= shr_m mrs -> shr_m (SpecFloat.iter_pos shr_1 n mrs) = shr_m mrs / 2 ^ Zpos n.
Proof.
  induction n as [n IH|n IH|]; intros mrs Hm; simpl SpecFloat.iter_pos.
  - assert (H1 : 0 <= shr_m (shr_1 mrs))
      by (rewrite shr_1_m by lia; apply Z.div_pos; lia).
    assert (H2 : 0 <= shr_m (SpecFloat.iter_pos shr_1 n (shr_1 mrs)))
      by (rewrite IH by lia; apply Z.div_pos; lia).
    rewrite IH, IH, shr_1_m by lia.
    rewrite !Z.div_div by lia. f_equal.
    replace (Z.pos n~1) with (1 + Z.pos n + Z.pos n) by lia.
    rewrite !Z.pow_add_r by lia. lia.
  - assert (H2 : 0 <= shr_m (SpecFloat.iter_pos shr_1 n mrs))
      by (rewrite IH by lia; apply Z.div_pos; lia).
    rewrite IH, IH by lia.
    rewrite Z.div_div by lia. f_equal.
    replace (Z.pos n~0) with (Z.pos n + Z.pos n) by lia.
    rewrite Z.pow_add_r by lia. lia.
  - rewrite shr_1_m by lia. reflexivity.
Qed.

Lemma digits2_log2 m : Zpos (digits2_pos m) = Z.log2 (Zpos m) + 1.
Proof.
  induction m as [m IH|m IH|]; simpl digits2_pos.
  - rewrite Pos2Z.inj_succ, IH, Pos2Z.inj_xI, Z.log2_succ_double; lia.
  - rewrite Pos2Z.inj_succ, IH, Pos2Z.inj_xO, Z.log2_double; lia.
  - reflexivity.
Qed.

Lemma shr_m_of_loc m l : shr_m (shr_record_of_loc m l) = m.
Proof. destruct l as [|[]]; reflexivity. Qed.

Lemma round_nearest_even_pos m l : 0 < m -> 0 < round_nearest_even m l.
Proof. destruct l as [|[]]; simpl; try destruct (Z.even m); lia. Qed.

Lemma shr_fexp_pos m e l :
  0 < m -> emin <= e ->
  0 < shr_m (fst (shr_fexp prec emax m e l)) /\ e <= snd (shr_fexp prec emax m e l).
Proof.
  intros Hm He. unfold shr_fexp, shr.
  destruct m as [|p|p]; try lia. simpl Zdigits2. rewrite digits2_log2.
  destruct (fexp prec emax (Z.log2 (Z.pos p) + 1 + e) - e) as [|n|n] eqn:Hn;
    simpl fst; simpl snd; rewrite ?shr_m_of_loc; try lia.
  rewrite iter_pos_shr_1_m by (rewrite shr_m_of_loc; lia).
  rewrite shr_m_of_loc. split; [|lia].
  apply Z.div_str_pos. split; [apply Z.pow_pos_nonneg; lia|].
  transitivity (2 ^ Z.log2 (Z.pos p)); [|apply Z.log2_spec; lia].
  apply Z.pow_le_mono_r; [lia|].
  unfold fexp, emin, SpecFloat.emin, prec, emax in *. lia.
Qed.

Lemma binary_round_aux_nonzero s m e l :
  0 < m -> emin <= e -> nonzero_from s e (binary_round_aux prec emax s m e l).
Proof.
  intros Hm He. unfold binary_round_aux.
  destruct (shr_fexp_pos m e l Hm He) as [H1 H2].
  destruct (shr_fexp prec emax m e l) as [mrs1 e1]; simpl in H1, H2.
  pose proof (round_nearest_even_pos _ (loc_of_shr_record mrs1) H1) as H3.
  destruct (shr_fexp_pos _ e1 loc_Exact H3 ltac:(lia)) as [H4 H5].
  destruct (shr_fexp prec emax _ e1 loc_Exact) as [mrs2 e2]; simpl in H4, H5.
  destruct (shr_m mrs2) as [|p|p]; try lia.
  destruct (e2 <=? emax - prec); simpl; [split; [reflexivity|lia]|reflexivity].
Qed.

Lemma shl_align_exp mx ex ex' : snd (shl_align mx ex ex') = Z.min ex ex'.
Proof. unfold shl_align. destruct (ex' - ex) eqn:E; simpl; lia. Qed.

Lemma float_of_int_pos z : 0 < z -> nonzero_from false (-52) (float_of_int z).
Proof.
  intros Hz. destruct z as [|p|p]; try lia.
  unfold float_of_int, binary_normalize, binary_round.
  pose proof (shl_align_exp p 0 (fexp prec emax (Z.pos (digits2_pos p) + 0))) as Ha.
  destruct (shl_align p 0 _) as [mz ez]. simpl in Ha.
  assert (-52 <= ez).
  { rewrite digits2_log2 in Ha. pose proof (Z.log2_nonneg (Z.pos p)).
    unfold fexp, SpecFloat.emin, prec, emax in Ha. lia. }
  pose proof (binary_round_aux_nonzero false (Z.pos mz) ez loc_Exact) as Hr.
  unfold emin, SpecFloat.emin, prec, emax in Hr.
  destruct (binary_round_aux _ _ _ _ _ _); simpl in *; try (apply Hr; lia).
  split; [apply Hr|]; lia.
Qed.


End Rounding.

(** ** Loops *)

Section Loops.

Context {S : Type}.



(** A loop that ends without raising has run its body at every index. *)
Lemma for_range_from_inv_ok (P : Z -> S -> Prop) body n : forall start s s',
  P start s ->
  (forall i s s', start <= i < start + Z.of_nat n -> P i s ->
     body i s = Ok s' -> P (i + 1) s') ->
  for_range_from start n body s = Ok s' -> P (start + Z.of_nat n) s'.
Proof.
  induction n as [|n IH]; intros start s s' H0 Hstep; simpl.
  - intros [= <-]. by rewrite Z.add_0_r.
  - destruct (body start s) as [s1|e] eqn:E1; [|done]. intros E.
    replace (start + Z.of_nat (Datatypes.S n)) with (start + 1 + Z.of_nat n) by lia.
    apply (IH (start + 1) s1 s'); [|intros i s2 s3 Hi; apply Hstep; lia|done].
    apply (Hstep start s s1); [lia|done|done].
Qed.

Lemma for_range_inv_ok (P : Z -> S -> Prop) body stop s s' :
  0 <= stop -> P 0 s ->
  (forall i s s', 0 <= i < stop -> P i s -> body i s = Ok s' -> P (i + 1) s') ->
  for_range stop body s = Ok s' -> P stop s'.
Proof.
  intros Hstop H0 Hstep E. unfold for_range in E.
  replace stop with (0 + Z.of_nat (Z.to_nat stop)) by lia.
  apply (for_range_from_inv_ok P body (Z.to_nat stop) 0 s s'); [done| |done].
  intros i s1 s2 Hi. apply Hstep. lia.
Qed.

End Loops.

(** ** Painting an image pixel by pixel, row by row *)

Section Painting.

Variables w h : Z.
Variable g : Z -> Z -> Z.

Local Abbreviation painted := (painted w h g).

Lemma painted_new :
  0 <= w -> 0 <= h ->
  exists i, Image_new "L" (w, h) 0 = Ok i /\ painted 0 0 i.
Proof.
  intros Hw Hh. unfold Image_new.
  replace ((w <? 0) || (h <? 0)) with false by (symmetry; apply orb_false_intro; lia).
  eexists. split; [reflexivity|].
  split; [done|]. split; [done|]. split; [simpl; by rewrite length_replicate|].
  intros x' y' Hx Hy. simpl.
  replace (before x' y' 0 0) with false
    by (unfold before; symmetry; apply orb_false_intro; [|apply andb_false_intro2]; lia).
  apply lookup_replicate_2. nia.
Qed.

Lemma offset_inj x y x' y' :
  0 <= x < w -> 0 <= x' < w -> 0 <= y -> 0 <= y' ->
  Z.to_nat (y' * w + x') = Z.to_nat (y * w + x) -> x' = x /\ y' = y.
Proof.
  intros Hx Hx' Hy Hy' E.
  assert (y' * w + x' = y * w + x) as E' by nia.
  assert (y' = y) by nia. subst. lia.
Qed.

Lemma before_next x y x' y' :
  before x' y' (x + 1) y =
  before x' y' x y || ((x' =? x) && (y' =? y)).
Proof.
  unfold before.
  destruct (y' <? y) eqn:E1, (y' =? y) eqn:E2, (x' <? x) eqn:E3,
    (x' =? x) eqn:E4, (x' <? x + 1) eqn:E5; simpl; try reflexivity; lia.
Qed.

Lemma painted_put x y v i :
  painted x y i -> 0 <= x < w -> 0 <= y < h -> g x y = clip8 v ->
  exists i', putpixel i (x, y) v = Ok i' /\ painted (x + 1) y i'.
Proof.
  intros (Hm & Hs & Hl & Hp) Hx Hy Hg. unfold putpixel, in_bounds, width, height.
  rewrite Hs. simpl fst; simpl snd.
  replace ((0 <=? x) && (x <? w) && (0 <=? y) && (y <? h)) with true
    by (symmetry; repeat (apply andb_true_intro; split); lia).
  eexists. split; [reflexivity|].
  split; [done|]. split; [done|]. split; [simpl; by rewrite length_insert|].
  intros x' y' Hx' Hy'. simpl. unfold offset, width. rewrite Hs. simpl fst; simpl snd.
  rewrite before_next.
  destruct (decide (Z.to_nat (y' * w + x') = Z.to_nat (y * w + x))) as [E|E].
  - destruct (offset_inj x y x' y') as [-> ->]; try lia.
    rewrite list_lookup_insert_eq by (rewrite Hl; nia).
    rewrite !Z.eqb_refl, orb_true_r. by rewrite Hg.
  - rewrite list_lookup_insert_ne by done. rewrite Hp by done.
    destruct (x' =? x) eqn:E1, (y' =? y) eqn:E2; simpl;
      rewrite ?orb_false_r; try reflexivity.
    exfalso. apply E. f_equal. lia.
Qed.


Lemma painted_row y i : painted w y i -> painted 0 (y + 1) i.
Proof.
  intros (Hm & Hs & Hl & Hp).
  split; [done|]. split; [done|]. split; [done|].
  intros x' y' Hx' Hy'. rewrite Hp by done.
  replace (before x' y' 0 (y + 1)) with (before x' y' w y); [done|].
  unfold before.
  destruct (y' <? y) eqn:E1, (y' =? y) eqn:E2, (x' <? w) eqn:E3,
    (y' <? y + 1) eqn:E4, (y' =? y + 1) eqn:E5, (x' <? 0) eqn:E6;
    simpl; try reflexivity; lia.
Qed.

Lemma painted_done i x y :
  painted 0 h i -> 0 <= x < w -> 0 <= y < h ->
  getpixel i (x, y) = Some (g x y).
Proof.
  intros (Hm & Hs & Hl & Hp) Hx Hy. unfold getpixel, in_bounds, offset, width, height.
  rewrite Hs. simpl fst; simpl snd.
  replace ((0 <=? x) && (x <? w) && (0 <=? y) && (y <? h)) with true
    by (symmetry; repeat (apply andb_true_intro; split); lia).
  rewrite Hp by done.
  replace (before x y 0 h) with true; [done|].
  unfold before. symmetry. apply orb_true_intro. left. lia.
Qed.

End Painting.

(** ** The fallback mask *)






(** ** The fallback depth map *)

(** C8: the fallback depth computation is not infallible.  On the 1x1
    image the center is (0, 0), the normalization distance is 0.0 and the
    first pixel divides by it. *)
Theorem generate_fallback_depth_1x1_raises :
  generate_fallback_depth (blank 1 1) =
    Raise (mkExc ZeroDivisionError "float division by zero").
Proof. vm_compute. reflexivity. Qed.

(** The value of each pixel of a depth map that was produced is the one
    [depth_value] computes, stored in 8 bits. *)
Lemma generate_fallback_depth_pixels image depth :
  generate_fallback_depth image = Ok depth ->
  mode depth = "L" /\ size depth = size image /\
  exists max_dist,
    math_sqrt (float_of_int ((width image `div` 2) ^ 2 + (height image `div` 2) ^ 2))
      = Ok max_dist /\
    forall x y, 0 <= x < width image -> 0 <= y < height image ->
      exists v,
        depth_value (width image `div` 2) (height image `div` 2) max_dist x y
          = Ok v /\
        getpixel depth (x, y) = Some (clip8 v).
Proof.
  unfold width, height, generate_fallback_depth.
  destruct (size image) as [w h]. simpl fst; simpl snd.
  destruct (Image_new "L" (w, h) 0) as [i0|e] eqn:E0; [|done].
  change (Ok i0 ≫= ?f) with (f i0). cbv beta.
  destruct (math_sqrt _) as [max_dist|e] eqn:Em; [|done].
  change (Ok max_dist ≫= ?f) with (f max_dist). cbv beta. intros E.
  assert (0 <= w /\ 0 <= h) as [Hw Hh].
  { unfold Image_new in E0.
    destruct ((w <? 0) || (h <? 0)) eqn:Eb; [done|].
    apply orb_false_elim in Eb. lia. }
  set (dv := depth_value (w `div` 2) (h `div` 2) max_dist) in *.
  set (g := fun x y => match dv x y with Ok v => clip8 v | Raise _ => 0 end).
  set (Q := fun x y i =>
    painted w h g x y i /\
    forall x' y', 0 <= x' < w -> 0 <= y' < h -> before x' y' x y = true ->
      exists v, dv x' y' = Ok v).
  assert (Q 0 h depth) as [Hp Hv].
  { destruct (painted_new w h g Hw Hh) as (i0' & E0' & H0).
    rewrite E0 in E0'. injection E0' as <-.
    refine (for_range_inv_ok (fun y i => Q 0 y i) _ h i0 depth Hh _ _ E).
    - split; [done|]. intros x' y' Hx' Hy' Hb. unfold before in Hb.
      apply orb_true_elim in Hb as [Hb|Hb]; [lia|].
      apply andb_true_iff in Hb. lia.
    - intros y i i' Hy Hi Ei.
      assert (Q w y i') as [Hp' Hv'].
      { refine (for_range_inv_ok (fun x i => Q x y i) _ w i i' Hw Hi _ Ei).
        intros x i1 i2 Hx [Hp1 Hv1] E1.
        destruct (dv x y) as [v|e] eqn:Ev; [|done].
        change (Ok v ≫= ?f) with (f v) in E1. cbv beta in E1.
        destruct (painted_put w h g x y v i1 Hp1 Hx Hy) as (i2' & E2 & Hp2).
        { unfold g. by rewrite Ev. }
        rewrite E1 in E2. injection E2 as <-.
        split; [done|]. intros x' y' Hx' Hy' Hb. rewrite before_next in Hb.
        apply orb_true_iff in Hb as [Hb|Hb]; [by apply Hv1|].
        apply andb_true_iff in Hb as [Hb1 Hb2].
        assert (x' = x) as -> by lia. assert (y' = y) as -> by lia. by exists v. }
      split; [by apply painted_row|].
      intros x' y' Hx' Hy' Hb. apply Hv'; try done.
      unfold before in *.
      destruct (y' <? y) eqn:E1, (y' =? y) eqn:E2, (x' <? w) eqn:E3,
        (y' <? y + 1) eqn:E4, (y' =? y + 1) eqn:E5, (x' <? 0) eqn:E6;
        simpl in *; try done; lia. }
  pose proof Hp as (Hmode & Hsize & _).
  split; [done|]. split; [done|]. exists max_dist. split; [done|].
  intros x y Hx Hy.
  destruct (Hv x y Hx Hy) as [v Ev].
  { unfold before. apply orb_true_intro. left. lia. }
  exists v. split; [done|].
  rewrite (painted_done w h g depth x y Hp Hx Hy). unfold g. by rewrite Ev.
Qed.

(** On a 100x100 image the value at the center is 255 and the value at
    the top-left corner, which is at the normalization distance, is 0. *)
Example depth_value_100_center :
  depth_value 50 50 (fsqrt (float_of_int (50 ^ 2 + 50 ^ 2))) 50 50 = Ok 255.
Proof. vm_compute. reflexivity. Qed.

Example depth_value_100_corner :
  depth_value 50 50 (fsqrt (float_of_int (50 ^ 2 + 50 ^ 2))) 0 0 = Ok 0.
Proof. vm_compute. reflexivity. Qed.

(** The values are those of double-precision arithmetic: on a 6x8 image
    the pixel (3, 0) is at distance 4 of 5, and 255 * (1 - 4/5) is
    computed as 50.99999999999999, hence 50. *)
Example depth_value_6x8 :
  depth_value 3 4 (fsqrt (float_of_int (3 ^ 2 + 4 ^ 2))) 3 0 = Ok 50.
Proof. vm_compute. reflexivity. Qed.

(** C6: the fallback depth map is not produced for every image of width
    and height at least 1.  For the 1x1 image the normalization distance
    is 0.0 and no image comes out. *)
Theorem generate_fallback_depth_1x1_no_image :
  math_sqrt (float_of_int ((1 `div` 2) ^ 2 + (1 `div` 2) ^ 2))
    = Ok (S754_zero false) /\
  depth_value (1 `div` 2) (1 `div` 2) (S754_zero false) 0 0
    = Raise (mkExc ZeroDivisionError "float division by zero") /\
  forall depth, generate_fallback_depth (blank 1 1) <> Ok depth.
Proof.
  split; [vm_compute; reflexivity|]. split; [vm_compute; reflexivity|].
  intros depth. vm_compute. discriminate.
Qed.

(** ** The provider chains *)

Lemma bind_lift {A B : Type} (r : PyResult A) (k : A -> M B) w :
  (lift r ≫= k) w = match r with Ok a => k a w | Raise e => (Raise e, w) end.
Proof. by destruct r. Qed.

(** The depth chain tries Replicate, then Hugging Face, each only when
    configured, and ends with the local fallback, whose result or
    exception it passes on. *)
Lemma generate_depth_map_chain env image w :
  fst (generate_depth_map env image w) = depth_chain env image /\
  remote_calls (snd (generate_depth_map env image w)) =
    remote_calls w ++ depth_chain_calls env image.
Proof.
  unfold generate_depth_map, depth_chain, depth_chain_calls, attempt.
  unfold generate_depth_replicate, generate_depth_hf, remote, try_except,
    print, lift, mbind, M_bind, mret, M_ret.
  destruct (truthy (REPLICATE_API_TOKEN env)), (truthy (HF_API_TOKEN env));
    destruct (replicate_depth env image), (hf_depth env image);
    destruct (generate_fallback_depth image); simpl;
    rewrite <- ?app_assoc, ?app_nil_r; done.
Qed.

(** C4: the depth chain can raise.  With no provider configured, or with
    both configured and failing, it reaches the local fallback, which
    raises on the 1x1 image; the chain passes the exception on. *)
Theorem generate_depth_map_1x1_raises :
  (forall cls rd hd dec enc fault dbf w,
     fst (generate_depth_map (mkEnv None None cls rd hd dec enc fault dbf)
            (blank 1 1) w)
       = Raise (mkExc ZeroDivisionError "float division by zero")) /\
  (forall cls e1 e2 dec enc fault dbf w,
     fst (generate_depth_map
            (mkEnv (Some "r8_token") (Some "hf_token") cls
               (fun _ => Raise e1) (fun _ => Raise e2) dec enc fault dbf)
            (blank 1 1) w)
       = Raise (mkExc ZeroDivisionError "float division by zero")).
Proof.
  split; intros.
  - rewrite (proj1 (generate_depth_map_chain _ _ _)). reflexivity.
  - rewrite (proj1 (generate_depth_map_chain _ _ _)). reflexivity.
Qed.

(** C9: whatever the credentials, [generate_mask] returns what
    [generate_fallback_mask] returns on the same image. *)
Theorem generate_mask_is_fallback env image w :
  fst (generate_mask env image w) = generate_fallback_mask image.
Proof.
  unfold generate_mask, generate_mask_replicate, try_except, print, lift,
    mbind, M_bind, mret, M_ret.
  destruct (truthy (REPLICATE_API_TOKEN env));
    destruct (generate_fallback_mask image); reflexivity.
Qed.

(** ** The classifier *)

(** Below 0.75 is not above 1.5. *)
Lemma flt_0_75_not_1_5 r : flt r lit_0_75 = true -> flt lit_1_5 r = false.
Proof.
  unfold flt, SFltb, lit_0_75, lit_1_5, SFcompare.
  destruct r as [s|s| |s m e].
  - destruct s; reflexivity.
  - destruct s; [reflexivity|discriminate].
  - reflexivity.
  - destruct s; [reflexivity|].
    destruct (Z.compare_spec e (-53)) as [H|H|H];
      destruct (Z.compare_spec (-52) e) as [H'|H'|H']; try lia;
      try (intros; reflexivity); try (intros; discriminate).
Qed.

(** At most is not above. *)
Lemma fle_not_flt a b : fle a b = true -> flt b a = false.
Proof.
  unfold fle, flt, SFleb, SFltb, SFcompare.
  destruct a as [sa|sa| |sa ma ea], b as [sb|sb| |sb mb eb];
    try (destruct sa); try (destruct sb);
    try reflexivity; try discriminate.
  all: assert (He : (eb ?= ea) = CompOpp (ea ?= eb))
    by apply Z.compare_antisym.
  all: assert (Hc : Pos.compare_cont Eq mb ma = CompOpp (Pos.compare_cont Eq ma mb))
    by (rewrite Pos.compare_cont_antisym; reflexivity).
  all: rewrite He, Hc.
  all: destruct (ea ?= eb); cbn [CompOpp]; try reflexivity; try discriminate.
  all: destruct (Pos.compare_cont Eq ma mb); cbn [CompOpp];
    try reflexivity; discriminate.
Qed.

(** C5: an aspect ratio above 1.5 gives Landscape and one below 0.75 gives
    Object, whatever the credentials and the providers, and the world is
    left as it was, so no provider was called; a ratio in [0.75, 1.5]
    without a Hugging Face credential gives Object. *)
Theorem classify_image_by_aspect_ratio env image w r :
  aspect_ratio image = Ok r ->
  (flt lit_1_5 r = true -> classify_image env image w = (Ok LANDSCAPE, w)) /\
  (flt r lit_0_75 = true -> classify_image env image w = (Ok OBJECT, w)) /\
  (fle lit_0_75 r = true -> fle r lit_1_5 = true ->
   truthy (HF_API_TOKEN env) = false ->
   classify_image env image w = (Ok OBJECT, w)).
Proof.
  unfold aspect_ratio, width, height, classify_image.
  destruct (size image) as [wd ht]. simpl fst; simpl snd. intros Er.
  rewrite bind_lift, Er.
  split; [|split].
  - intros H. by rewrite H.
  - intros H. by rewrite (flt_0_75_not_1_5 r H), H.
  - intros H1 H2 Ht.
    by rewrite (fle_not_flt _ _ H2), (fle_not_flt _ _ H1), Ht.
Qed.

(** Ratios 2.0, 0.5 and 1.0: a 200x100, a 50x100 and a 100x100 image. *)
Lemma classify_image_examples :
  let env := example_env in
  let w := example_world uploaded in
  classify_image env (blank 200 100) w = (Ok LANDSCAPE, w) /\
  classify_image env (blank 50 100) w = (Ok OBJECT, w) /\
  classify_image env (blank 100 100) w = (Ok OBJECT, w).
Proof.
  intros env w. split; [|split].
  - refine (proj1 (classify_image_by_aspect_ratio env (blank 200 100) w
                     (fdiv (float_of_int 200) (float_of_int 100)) _) _);
      vm_compute; reflexivity.
  - refine (proj1 (proj2 (classify_image_by_aspect_ratio env (blank 50 100) w
                     (fdiv (float_of_int 50) (float_of_int 100)) _)) _);
      vm_compute; reflexivity.
  - refine (proj2 (proj2 (classify_image_by_aspect_ratio env (blank 100 100) w
                     (fdiv (float_of_int 100) (float_of_int 100)) _)) _ _ _);
      vm_compute; reflexivity.
Defined.

(** ** The job ledger *)

(** C10: [update_job] leaves every other row alone; in the row of the job
    it keeps the three columns it never assigns and every column whose
    argument is [None], and sets the others; with every argument [None]
    it returns [False] and changes nothing, [updated_at] included. *)
Theorem update_job_frame now job_id st it pr er out (jobs : gmap string JobRow) :
  let jobs' := fst (update_job now job_id st it pr er out jobs) in
  let changed := snd (update_job now job_id st it pr er out jobs) in
  (forall other, other <> job_id -> jobs' !! other = jobs !! other) /\
  (jobs !! job_id = None -> jobs' = jobs /\ changed = false) /\
  (forall row, jobs !! job_id = Some row ->
     exists row', jobs' !! job_id = Some row' /\
       id row' = id row /\ created_at row' = created_at row /\
       original_filename row' = original_filename row /\
       status row' = default (status row) st /\
       input_type row' = from_option Some (input_type row) it /\
       progress row' = default (progress row) pr /\
       error row' = from_option Some (error row) er /\
       outputs row' = from_option Some (outputs row) out) /\
  (st = None -> it = None -> pr = None -> er = None -> out = None ->
   jobs' = jobs /\ changed = false).
Proof.
  unfold update_job.
  destruct st as [s|], it as [t|], pr as [p|], er as [e|], out as [o|];
    simpl; (split; [|split; [|split]]);
    try (intros other Hne; destruct (jobs !! job_id); simpl;
         by rewrite ?lookup_insert_ne);
    try (by intros ->);
    try (intros row ->; simpl; rewrite ?lookup_insert_eq; by eexists);
    try done.
Qed.

(** With only [progress] passed the other columns stay; with nothing
    passed the table stays. *)
Lemma update_job_frame_example :
  let row := mkJobRow "j1" PROCESSING 0 1 (Some OBJECT) 10 None "a.png" None in
  let jobs : gmap string JobRow := {["j1" := row]} in
  (exists row',
     fst (update_job 7 "j1" None None (Some 20) None None jobs) !! "j1"
       = Some row' /\
     status row' = PROCESSING /\ input_type row' = Some OBJECT /\
     progress row' = 20 /\ error row' = None /\ outputs row' = None) /\
  fst (update_job 7 "j1" None None None None None jobs) = jobs /\
  snd (update_job 7 "j1" None None None None None jobs) = false.
Proof.
  intros row jobs. split.
  - destruct (update_job_frame 7 "j1" None None (Some 20) None None jobs)
      as (_ & _ & H & _).
    destruct (H row (lookup_singleton_eq "j1" row))
      as (row' & E & _ & _ & _ & Hs & Ht & Hp & He & Ho).
    exists row'. repeat split; assumption.
  - destruct (update_job_frame 7 "j1" None None None None None jobs)
      as (_ & _ & _ & H).
    exact (H eq_refl eq_refl eq_refl eq_refl eq_refl).
Defined.

(** ** Reasoning about runs *)

Section Triples.

Context {A B : Type}.

Lemma triple_bind P (m : M A) (k : A -> M B) Q R E :
  triple P m Q E -> (forall a, triple (Q a) (k a) R E) ->
  triple P (m ≫= k) R E.
Proof.
  intros Hm Hk w Hw. specialize (Hm w Hw).
  unfold mbind, M_bind. destruct (m w) as [[a|e] w1]; [|done].
  by apply Hk.
Qed.

Lemma triple_weaken (P P' : World -> Prop) (m : M A) (Q Q' : A -> World -> Prop)
    (E E' : PyExc -> World -> Prop) :
  triple P' m Q' E' ->
  (forall w, P w -> P' w) -> (forall a w, Q' a w -> Q a w) ->
  (forall e w, E' e w -> E e w) ->
  triple P m Q E.
Proof.
  intros Hm HP HQ HE w Hw. specialize (Hm w (HP w Hw)).
  destruct (m w) as [[a|e] w1]; auto.
Qed.

Lemma triple_ret (P : World -> Prop) (a : A) E :
  triple P (mret a) (fun a' w => a' = a /\ P w) E.
Proof. intros w Hw. by split. Qed.

Lemma frame_ret (a : A) : frame (mret a : M A).
Proof. by intros w. Qed.

Lemma frame_lift (r : PyResult A) : frame (lift r).
Proof. by intros w. Qed.

Lemma frame_raise (e : PyExc) : frame (raise e : M A).
Proof. by intros w. Qed.

Lemma frame_remote name (r : PyResult A) : frame (remote name r).
Proof. by intros w. Qed.

Lemma frame_bind (m : M A) (k : A -> M B) :
  frame m -> (forall a, frame (k a)) -> frame (m ≫= k).
Proof.
  intros Hm Hk w. destruct (Hm w) as (H1 & H2 & H3).
  unfold mbind, M_bind. destruct (m w) as [[a|e] w1]; simpl in *; [|done].
  destruct (Hk a w1) as (H4 & H5 & H6). by rewrite H4, H5, H6.
Qed.

Lemma frame_try (body : M A) (handler : PyExc -> M A) :
  frame body -> (forall e, frame (handler e)) -> frame (try_except body handler).
Proof.
  intros Hm Hk w. destruct (Hm w) as (H1 & H2 & H3).
  unfold try_except. destruct (body w) as [[a|e] w1]; simpl in *; [done|].
  destruct (Hk e w1) as (H4 & H5 & H6). by rewrite H4, H5, H6.
Qed.

End Triples.

Lemma frame_utcnow : frame utcnow.
Proof. by intros w. Qed.

Lemma frame_uuid4 : frame uuid4.
Proof. by intros w. Qed.

Lemma frame_print line : frame (print line).
Proof. by intros w. Qed.

Lemma frame_path_exists path : frame (path_exists path).
Proof. by intros w. Qed.

Lemma frame_write_file path data : frame (write_file path data).
Proof. by intros w. Qed.

Lemma frame_Image_open env path : frame (Image_open env path).
Proof. intros w. unfold Image_open. by destruct (files w !! path). Qed.

(** Every step of the pipeline but the ledger calls is a frame step. *)
Ltac solve_frame :=
  repeat first
    [ apply frame_ret | apply frame_lift | apply frame_raise
    | apply frame_remote | apply frame_utcnow | apply frame_uuid4
    | apply frame_print | apply frame_path_exists | apply frame_write_file
    | apply frame_Image_open
    | apply frame_bind; [|intros ?]
    | apply frame_try; [|intros ?]
    | match goal with
      | |- frame (if ?b then _ else _) => destruct b
      | |- frame (match ?x with _ => _ end) => destruct x
      end ].

Lemma frame_save_png env image : frame (save_png env image).
Proof. unfold save_png. solve_frame. Qed.

Lemma frame_save_asset fault job_id asset_type data extension :
  frame (save_asset fault job_id asset_type data extension).
Proof. unfold save_asset. solve_frame. Qed.

Lemma frame_classify_image env image : frame (classify_image env image).
Proof. unfold classify_image, classify_with_hf. solve_frame. Qed.

Lemma frame_generate_depth_map env image : frame (generate_depth_map env image).
Proof.
  unfold generate_depth_map, generate_depth_replicate, generate_depth_hf.
  solve_frame.
Qed.

Lemma frame_generate_mask env image : frame (generate_mask env image).
Proof. unfold generate_mask, generate_mask_replicate. solve_frame. Qed.

(** ** The ledger writes of a run *)

Lemma replay_snoc job_id uts : forall (jobs0 : gmap string JobRow) u t,
  replay job_id jobs0 (uts ++ [(u, t)]) =
    let jobs' :=
      fst (update_job t job_id (u_status u) (u_input_type u) (u_progress u)
             (u_error u) (u_outputs u) (snd (replay job_id jobs0 uts))) in
    (fst (replay job_id jobs0 uts) ++ [mkWrite job_id u t (get_job job_id jobs')],
     jobs').
Proof.
  induction uts as [|[u' t'] uts IH]; intros jobs0 u t; simpl.
  - reflexivity.
  - rewrite IH. by destruct (replay job_id _ uts).
Qed.

Section RunState.

Variable w0 : World.
Variable job_id : string.
Variable fault : nat -> option PyExc.

Local Abbreviation state := (run_state w0 job_id).

Lemma run_state_start : state [] [] w0.
Proof.
  exists [], []. simpl. rewrite !app_nil_r. repeat split; try done.
Qed.

Lemma run_state_frame us kinds w w' :
  jobs w' = jobs w -> assets w' = assets w -> ledger_log w' = ledger_log w ->
  state us kinds w -> state us kinds w'.
Proof.
  intros H1 H2 H3 (uts & rows & H). exists uts, rows. by rewrite H1, H2, H3.
Qed.

Lemma triple_frame {A : Type} (m : M A) us kinds :
  frame m ->
  triple (state us kinds) m (fun _ => state us kinds) (fun _ => state us kinds).
Proof.
  intros Hm w Hw. destruct (Hm w) as (H1 & H2 & H3).
  destruct (m w) as [[a|e] w1]; simpl in *; by eapply run_state_frame.
Qed.

(** A ledger update lands, or the database raises and nothing is
    written. *)
Lemma triple_update us kinds u :
  triple (state us kinds) (db_update_job fault job_id u)
    (fun _ => state (us ++ [u]) kinds)
    (fun e w => state us kinds w /\ exists time, fault time = Some e).
Proof.
  intros w Hw. unfold db_update_job.
  destruct (if nothing_to_update u then None else fault (clock w))
    as [e|] eqn:Ef.
  { split; [by eapply run_state_frame|]. exists (clock w).
    by destruct (nothing_to_update u). }
  destruct Hw as (uts & rows & Hus & Hlog & Hjobs & Hassets & Hkinds & Hown).
  destruct (update_job _ _ _ _ _ _ _ _) as [jobs' changed] eqn:Eu.
  exists (uts ++ [(u, clock w)]), rows. rewrite replay_snoc. simpl.
  rewrite <- Hjobs, Eu. simpl.
  repeat split; try done.
  - by rewrite map_app, Hus.
  - by rewrite Hlog, app_assoc.
Qed.

Lemma triple_insert_asset us kinds row :
  asset_job_id row = job_id ->
  triple (state us kinds) (insert_asset row)
    (fun _ => state us (kinds ++ [asset_type row])) (fun _ => state us kinds).
Proof.
  intros Hrow w Hw. unfold insert_asset.
  destruct (bool_decide _); [done|].
  destruct Hw as (uts & rows & Hus & Hlog & Hjobs & Hassets & Hkinds & Hown).
  exists uts, (rows ++ [row]). simpl.
  repeat split; try done.
  - by rewrite Hassets, app_assoc.
  - by rewrite map_app, Hkinds.
  - apply Forall_app. split; [done|]. by apply Forall_singleton.
Qed.

Lemma triple_create_asset us kinds kind filename content_type size metadata :
  triple (state us kinds)
    (db_create_asset job_id kind filename content_type size metadata)
    (fun _ => state us (kinds ++ [kind])) (fun _ => state us kinds).
Proof.
  unfold db_create_asset.
  eapply triple_bind; [apply triple_frame, frame_uuid4|]. intros asset_id.
  eapply triple_bind; [apply triple_frame, frame_utcnow|]. intros now.
  eapply triple_bind; [by apply triple_insert_asset|]. intros ?. simpl.
  by intros w Hw.
Qed.

Lemma triple_store_asset env us kinds kind image width height :
  triple (state us kinds)
    (store_asset env job_id kind image width height)
    (fun _ => state us (kinds ++ [kind])) (fun _ => state us kinds).
Proof.
  unfold store_asset.
  eapply triple_bind; [apply triple_frame, frame_save_png|]. intros buffer.
  eapply triple_bind; [apply triple_frame, frame_save_asset|]. intros ?.
  apply triple_create_asset.
Qed.

End RunState.

(** ** The run of [process_image] *)

Section Run.

Variable env : Env.
Variable w0 : World.
Variables job_id filename : string.

Local Abbreviation state := (run_state w0 job_id).

Lemma failed_state_intro t us kinds w :
  us `prefix_of` pre_updates t -> state us kinds w -> failed_state w0 job_id w.
Proof. intros Hp Hs. by exists t, us, kinds. Qed.

(** A frame step, an update and the storing of an asset, each followed by
    the rest of the pipeline. *)
Lemma step_frame {A B : Type} (m : M A) (k : A -> M B) t us kinds R :
  frame m -> us `prefix_of` pre_updates t ->
  (forall a, triple (state us kinds) (k a) R (fun _ => failed_state w0 job_id)) ->
  triple (state us kinds) (m ≫= k) R (fun _ => failed_state w0 job_id).
Proof.
  intros Hm Hp Hk. eapply triple_bind; [|exact Hk].
  eapply triple_weaken; [by apply triple_frame| | |]; try done.
  intros ? w. by apply failed_state_intro with t.
Qed.

Lemma step_update {B : Type} u (k : bool -> M B) t us kinds R :
  us `prefix_of` pre_updates t ->
  (forall a, triple (state (us ++ [u]) kinds) (k a) R
               (fun _ => failed_state w0 job_id)) ->
  triple (state us kinds) (db_update_job (db_fault env) job_id u ≫= k) R
    (fun _ => failed_state w0 job_id).
Proof.
  intros Hp Hk. eapply triple_bind; [|exact Hk].
  eapply triple_weaken; [apply triple_update| | |]; try done.
  intros ? w [Hw _]. by apply (failed_state_intro t us kinds).
Qed.

Lemma step_store {B : Type} kind image width height (k : string -> M B)
    t us kinds R :
  us `prefix_of` pre_updates t ->
  (forall a, triple (state us (kinds ++ [kind])) (k a) R
               (fun _ => failed_state w0 job_id)) ->
  triple (state us kinds)
    (store_asset env job_id kind image width height ≫= k) R
    (fun _ => failed_state w0 job_id).
Proof.
  intros Hp Hk. eapply triple_bind; [|exact Hk].
  eapply triple_weaken; [apply triple_store_asset| | |]; try done.
  intros ? w. by apply failed_state_intro with t.
Qed.

Ltac prefix := unfold pre_updates; simpl; by eexists.

(** The pipeline after the upload has been opened. *)
Lemma triple_classified image width height (input_type : InputType)
    (hint : option InputType) :
  (forall h, hint = Some h -> input_type = h) ->
  triple (state [upd_processing; upd_progress 20] [])
    (_ ← db_update_job (db_fault env) job_id (upd_classified input_type);
     _ ← db_update_job (db_fault env) job_id (upd_progress 40);
     depth_image ← generate_depth_map env image;
     _ ← db_update_job (db_fault env) job_id (upd_progress 60);
     color_asset_id ←
       store_asset env job_id "color" (convert "RGB" image) width height;
     depth_asset_id ←
       store_asset env job_id "depth" depth_image width height;
     let outputs :=
       <["depth" := depth_asset_id]> (<["color" := color_asset_id]> ∅) in
     outputs ←
       (if bool_decide (input_type = OBJECT) then
          _ ← db_update_job (db_fault env) job_id (upd_progress 80);
          mask_image ← generate_mask env image;
          mask_asset_id ←
            store_asset env job_id "mask" mask_image width height;
          mret (<["mask" := mask_asset_id]> outputs)
        else mret outputs);
     _ ← db_update_job (db_fault env) job_id (upd_completed outputs);
     mret tt)
    (fun _ => completed_state w0 job_id hint)
    (fun _ => failed_state w0 job_id).
Proof.
  intros Hhint.
  apply step_update with input_type; [prefix|]. intros ?.
  apply step_update with input_type; [prefix|]. intros ?.
  apply step_frame with input_type;
    [apply frame_generate_depth_map|prefix|]. intros depth_image.
  apply step_update with input_type; [prefix|]. intros ?. simpl app.
  apply step_store with input_type; [prefix|]. intros color_asset_id.
  apply step_store with input_type; [prefix|]. intros depth_asset_id.
  simpl app. cbv zeta.
  destruct (bool_decide (input_type = OBJECT)) eqn:Et.
  - apply bool_decide_eq_true in Et. subst input_type.
    eapply triple_bind with
      (Q := fun outs w => dom outs = output_keys OBJECT /\
              state (pre_updates OBJECT) (asset_types OBJECT) w).
    + apply step_update with OBJECT; [prefix|]. intros ?. simpl app.
      apply step_frame with OBJECT; [apply frame_generate_mask|prefix|].
      intros mask_image.
      apply step_store with OBJECT; [prefix|]. intros mask_asset_id.
      intros w Hw. split; [|exact Hw].
      rewrite !dom_insert_L, dom_empty_L. unfold output_keys. simpl. set_solver.
    + intros outs w [Hd Hw]. revert w Hw.
      apply step_update with OBJECT; [done|]. intros ?. intros w Hw.
      exists OBJECT, outs. by split.
  - apply bool_decide_eq_false in Et.
    eapply triple_bind with
      (Q := fun outs w => dom outs = output_keys input_type /\
              state (pre_updates input_type) (asset_types input_type) w).
    + intros w Hw. split.
      * rewrite !dom_insert_L, dom_empty_L. unfold output_keys.
        rewrite bool_decide_eq_false_2 by done. set_solver.
      * unfold pre_updates, asset_types.
        rewrite bool_decide_eq_false_2 by done. by rewrite !app_nil_r.
    + intros outs w [Hd Hw]. revert w Hw.
      apply step_update with input_type; [done|]. intros ?. intros w Hw.
      exists input_type, outs. by split.
Qed.


(** A run of [process_image] either returns, having made every update
    and created the assets, or raises, having made some of the updates
    and then either the failure update, or none because the database
    raised on it: the exception is then the one of the database. *)
Lemma process_image_run (hint : option InputType) :
  match process_image env job_id filename hint w0 with
  | (Ok _, w) => completed_state w0 job_id hint w
  | (Raise e, w) =>
      exists t us kinds,
        us `prefix_of` pre_updates t /\
        (state (us ++ [upd_failed e]) kinds w \/
         state us kinds w /\ exists time, db_fault env time = Some e)
  end.
Proof.
  unfold process_image, try_except.
  match goal with |- context [match ?body w0 with _ => _ end] =>
    set (run := body)
  end.
  assert (Hbody : triple (state [] []) run
            (fun _ => completed_state w0 job_id hint)
            (fun _ => failed_state w0 job_id)).
  { subst run. apply (step_update upd_processing) with OBJECT; [prefix|].
    intros ?. simpl app.
    apply step_frame with OBJECT; [apply frame_path_exists|prefix|].
    intros found.
    apply step_frame with OBJECT; [destruct found; solve_frame|prefix|].
    intros ?.
    apply step_frame with OBJECT; [apply frame_Image_open|prefix|].
    intros image. destruct (size image) as [width height].
    apply step_update with OBJECT; [prefix|]. intros ?. simpl app.
    destruct hint as [h|].
    - eapply triple_bind with (Q := fun t w => t = h /\ state _ [] w).
      + intros w Hw. by split.
      + intros t w [-> Hw]. revert w Hw.
        apply triple_classified. by intros ? [= ->].
    - apply step_frame with OBJECT; [apply frame_classify_image|prefix|].
      intros input_type. by apply triple_classified. }
  specialize (Hbody w0 (run_state_start w0 job_id)).
  destruct (run w0) as [[[]|e] w1]; [done|].
  destruct Hbody as (t & us & kinds & Hp & Hs).
  pose proof (triple_update w0 job_id (db_fault env) us kinds (upd_failed e)
                w1 Hs) as Hu.
  unfold mbind, M_bind.
  destruct (db_update_job (db_fault env) job_id (upd_failed e) w1)
    as [[b|e'] w2]; simpl; exists t, us, kinds; split; try done.
  - by left.
  - by right.
Qed.

End Run.

(** ** The row of the job along a run *)

Lemma update_job_lookup (jobs0 : gmap string JobRow) job_id row now u :
  jobs0 !! job_id = Some row ->
  fst (update_job now job_id (u_status u) (u_input_type u) (u_progress u)
         (u_error u) (u_outputs u) jobs0) !! job_id
    = Some (update_row now u row).
Proof.
  intros Hrow. unfold update_job, update_row, assignments.
  destruct u as [[s|] [t|] [p|] [e|] [o|]]; simpl; rewrite Hrow; simpl;
    by rewrite ?lookup_insert_eq.
Qed.

Lemma update_row_fields now u row :
  Some (status (update_row now u row)) = latest u_status [u] (Some (status row)) /\
  input_type (update_row now u row) = latest u_input_type [u] (input_type row) /\
  Some (progress (update_row now u row))
    = latest u_progress [u] (Some (progress row)) /\
  error (update_row now u row) = latest u_error [u] (error row) /\
  outputs (update_row now u row) = latest u_outputs [u] (outputs row).
Proof. by destruct u as [[s|] [t|] [p|] [e|] [o|]]. Qed.

Lemma final_row_fields uts : forall row,
  Some (status (final_row row uts))
    = latest u_status (map fst uts) (Some (status row)) /\
  input_type (final_row row uts)
    = latest u_input_type (map fst uts) (input_type row) /\
  Some (progress (final_row row uts))
    = latest u_progress (map fst uts) (Some (progress row)) /\
  error (final_row row uts) = latest u_error (map fst uts) (error row) /\
  outputs (final_row row uts) = latest u_outputs (map fst uts) (outputs row).
Proof.
  induction uts as [|[u t] uts IH]; intros row; [done|].
  destruct (update_row_fields t u row) as (H1 & H2 & H3 & H4 & H5).
  simpl map. unfold latest in *. cbn [foldl] in *.
  rewrite <- H1, <- H2, <- H3, <- H4, <- H5.
  apply (IH (update_row t u row)).
Qed.

Lemma replay_final job_id uts : forall (jobs0 : gmap string JobRow) row,
  jobs0 !! job_id = Some row ->
  snd (replay job_id jobs0 uts) !! job_id = Some (final_row row uts) /\
  last (Some row :: map lw_row (fst (replay job_id jobs0 uts)))
    = Some (Some (final_row row uts)).
Proof.
  induction uts as [|[u t] uts IH]; intros jobs0 row Hrow; [done|].
  simpl replay.
  pose proof (update_job_lookup jobs0 job_id row t u Hrow) as Hrow'.
  destruct (IH _ _ Hrow') as [H1 H2].
  destruct (replay job_id _ uts) as [writes jobs''] eqn:Er. simpl in *.
  split; [done|]. unfold get_job. by rewrite Hrow'.
Qed.

Lemma replay_args job_id uts : forall (jobs0 : gmap string JobRow),
  map lw_args (fst (replay job_id jobs0 uts)) = map fst uts.
Proof.
  induction uts as [|[u t] uts IH]; intros jobs0; [done|].
  simpl replay. specialize (IH (fst (update_job t job_id (u_status u)
    (u_input_type u) (u_progress u) (u_error u) (u_outputs u) jobs0))).
  destruct (replay job_id _ uts) as [writes jobs'']. simpl in *. by rewrite IH.
Qed.

Lemma written_progress_args writes :
  written_progress writes = omap u_progress (map lw_args writes).
Proof.
  unfold written_progress. induction writes as [|lw writes IH]; [done|].
  simpl. destruct (u_progress (lw_args lw)); [f_equal|]; exact IH.
Qed.

Lemma observed_progress_cons lw writes :
  observed_progress (lw :: writes) =
    match lw_row lw with
    | Some r => progress r :: observed_progress writes
    | None => observed_progress writes
    end.
Proof. unfold observed_progress. simpl. by destruct (lw_row lw). Qed.

(** What a poll sees after each write is the progress passed, or the
    previous progress when none was passed. *)
Lemma replay_observed job_id uts : forall (jobs0 : gmap string JobRow) row,
  jobs0 !! job_id = Some row ->
  length (observed_progress (fst (replay job_id jobs0 uts))) = length uts /\
  (chain (progress row) (omap u_progress (map fst uts)) ->
   chain (progress row) (observed_progress (fst (replay job_id jobs0 uts)))).
Proof.
  induction uts as [|[u t] uts IH]; intros jobs0 row Hrow; [done|].
  simpl replay.
  pose proof (update_job_lookup jobs0 job_id row t u Hrow) as Hrow'.
  destruct (IH _ _ Hrow') as [H1 H2].
  destruct (replay job_id _ uts) as [writes jobs''] eqn:Er.
  cbn [fst] in *. rewrite observed_progress_cons. cbn [lw_row].
  unfold get_job. rewrite Hrow'.
  split; [simpl; by rewrite H1|].
  destruct (update_row_fields t u row) as (_ & _ & Hp & _).
  unfold latest in Hp. simpl in Hp. simpl.
  destruct (u_progress u) as [p|]; simpl; injection Hp as Hp; rewrite Hp in *.
  - intros [Hle Hc]. split; [done|]. by apply H2.
  - intros Hc. split; [lia|]. by apply H2.
Qed.

Lemma chain_app_l p l k : chain p (l ++ k) -> chain p l.
Proof.
  revert p. induction l as [|x l IH]; intros p; simpl; [done|].
  intros [H1 H2]. split; [done|]. by apply IH.
Qed.

Lemma chain_sorted p l : chain p l -> StronglySorted Z.le (p :: l).
Proof.
  intros H. apply Sorted_StronglySorted; [intros x y z; lia|].
  revert p H. induction l as [|x l IH]; intros p; simpl.
  - intros _. by repeat constructor.
  - intros [H1 H2]. constructor; [by apply IH|]. by constructor.
Qed.

(** The updates of a run before the last one never fail the job, and the
    only input type they write is the one that selects them. *)
Lemma pre_updates_elem t u :
  u ∈ pre_updates t ->
  u_status u <> Some FAILED /\
  (forall t', u_input_type u = Some t' -> t' = t).
Proof.
  unfold pre_updates. rewrite elem_of_app, !elem_of_cons, elem_of_nil.
  destruct (bool_decide (t = OBJECT));
    rewrite ?elem_of_cons, !elem_of_nil; intros H;
    repeat match goal with H : _ \/ _ |- _ => destruct H | H : False |- _ => done end;
    subst u; split; try done; simpl; congruence.
Qed.

Lemma pre_updates_progress t :
  progress_steps t = omap u_progress (pre_updates t) ++ [100].
Proof. unfold progress_steps, pre_updates. by destruct (bool_decide (t = OBJECT)). Qed.

Lemma chain_progress_steps p t : p <= 10 -> chain p (progress_steps t).
Proof.
  intros Hp. unfold progress_steps.
  destruct (bool_decide (t = OBJECT)); simpl; lia.
Qed.

(** ** What a run writes *)

Lemma map_snoc_inv {A B : Type} (f : A -> B) l a b :
  map f l = a ++ [b] ->
  exists l' x, l = l' ++ [x] /\ map f l' = a /\ f x = b.
Proof.
  destruct l as [|x l _] using rev_ind; intros H.
  - by destruct a.
  - rewrite map_app in H. simpl in H. apply app_inj_tail in H as [H1 H2].
    by exists l, x.
Qed.

Lemma latest_last {A : Type} (f : JobUpdate -> option A) us : forall p,
  latest f us (Some p) = last (p :: omap f us).
Proof.
  induction us as [|u us IH]; intros p; [done|].
  unfold latest in *. cbn [foldl]. simpl omap.
  destruct (f u) as [x|]; rewrite IH; [|done].
  by rewrite last_cons_cons.
Qed.

Lemma latest_snoc {A : Type} (f : JobUpdate -> option A) us u old :
  latest f (us ++ [u]) old =
    match f u with Some x => Some x | None => latest f us old end.
Proof. unfold latest. by rewrite foldl_app. Qed.

Lemma prefix_omap {A B : Type} (f : A -> option B) (l k : list A) :
  l `prefix_of` k -> omap f l `prefix_of` omap f k.
Proof. intros [r ->]. rewrite omap_app. by eexists. Qed.

(** The ledger writes, the row and the assets a run leaves. *)
Lemma process_image_writes env job_id filename hint w row :
  jobs w !! job_id = Some row ->
  exists t uts rows,
    ledger_log (snd (process_image env job_id filename hint w))
      = ledger_log w ++ fst (replay job_id (jobs w) uts) /\
    jobs (snd (process_image env job_id filename hint w)) !! job_id
      = Some (final_row row uts) /\
    assets (snd (process_image env job_id filename hint w)) = assets w ++ rows /\
    Forall (fun r => asset_job_id r = job_id) rows /\
    match fst (process_image env job_id filename hint w) with
    | Ok _ =>
        exists outs,
          (forall h, hint = Some h -> t = h) /\
          dom outs = output_keys t /\
          map fst uts = pre_updates t ++ [upd_completed outs] /\
          map asset_type rows = asset_types t
    | Raise e =>
        exists us,
          us `prefix_of` pre_updates t /\
          (map fst uts = us ++ [upd_failed e] \/
           map fst uts = us /\ exists time, db_fault env time = Some e)
    end.
Proof.
  intros Hrow.
  pose proof (process_image_run env w job_id filename hint) as H.
  destruct (process_image env job_id filename hint w) as [[[]|e] w'].
  - destruct H as (t & outs & Hh & Hd & uts & rows & H1 & H2 & H3 & H4 & H5 & H6).
    exists t, uts, rows. simpl. rewrite H3.
    destruct (replay_final job_id uts (jobs w) row Hrow) as [Hf _].
    repeat split; try done. by exists outs.
  - destruct H as (t & us & kinds & Hp & H).
    assert (Hst : exists kinds' us',
              run_state w job_id us' kinds' w' /\
              (us' = us ++ [upd_failed e] \/
               us' = us /\ exists time, db_fault env time = Some e)).
    { destruct H as [H|[H Hf]]; eexists _, _; (split; [exact H|]);
        [by left|by right]. }
    destruct Hst as (kinds' & us' & (uts & rows & H1 & H2 & H3 & H4 & H5 & H6)
                     & Hus).
    exists t, uts, rows. simpl. rewrite H3.
    destruct (replay_final job_id uts (jobs w) row Hrow) as [Hf _].
    repeat split; try done. exists us. split; [done|]. by rewrite H1.
Qed.

(** ** Progress along a run *)

(** C1: for a job whose row has progress at most 10 (a new job has 0),
    the progress values [process_image] passes to the ledger are the first
    values of 10, 20, 30, 40, 60, (80 only when the type written is
    Object), 100; the failure update passes none; and the progress a poll
    reads after each write never goes down. *)
Theorem process_image_progress_nondecreasing env job_id filename hint w row :
  jobs w !! job_id = Some row ->
  progress row <= 10 ->
  exists writes t,
    ledger_log (snd (process_image env job_id filename hint w))
      = ledger_log w ++ writes /\
    written_progress writes `prefix_of` progress_steps t /\
    (forall lw, lw ∈ writes -> u_status (lw_args lw) = Some FAILED ->
       u_progress (lw_args lw) = None) /\
    (forall lw t', lw ∈ writes -> u_input_type (lw_args lw) = Some t' ->
       t' = t) /\
    length (observed_progress writes) = length writes /\
    StronglySorted Z.le (progress row :: observed_progress writes).
Proof.
  intros Hrow Hp.
  destruct (process_image_writes env job_id filename hint w row Hrow)
    as (t & uts & rows & Hl & _ & _ & _ & Hr).
  exists (fst (replay job_id (jobs w) uts)), t.
  pose proof (replay_args job_id uts (jobs w)) as Hargs.
  destruct (replay_observed job_id uts (jobs w) row Hrow) as [Hlen Hchain].
  assert (Hus : exists us tail,
            map fst uts = us ++ tail /\
            us `prefix_of` pre_updates t /\
            omap u_progress (us ++ tail) `prefix_of` progress_steps t /\
            forall u, u ∈ tail ->
              (u_status u = Some FAILED -> u_progress u = None) /\
              u_input_type u = None).
  { destruct (fst (process_image env job_id filename hint w)) as [[]|e].
    - destruct Hr as (outs & _ & _ & Hu & _).
      exists (pre_updates t), [upd_completed outs].
      split; [done|]. split; [done|]. split.
      + rewrite omap_app, pre_updates_progress. done.
      + intros u Hin. by apply list_elem_of_singleton in Hin as ->.
    - destruct Hr as (us & Hpre & [Hu|[Hu _]]).
      + exists us, [upd_failed e]. split; [done|]. split; [done|]. split.
        * rewrite omap_app. simpl. rewrite app_nil_r, pre_updates_progress.
          by apply prefix_app_r, prefix_omap.
        * intros u Hin. by apply list_elem_of_singleton in Hin as ->.
      + exists us, []. rewrite app_nil_r. split; [done|]. split; [done|]. split.
        * rewrite pre_updates_progress. by apply prefix_app_r, prefix_omap.
        * intros u Hin. by apply elem_of_nil in Hin. }
  destruct Hus as (us & tail & Hu & Hpre & Hsteps & Htail).
  assert (Helem : forall lw, lw ∈ fst (replay job_id (jobs w) uts) ->
            lw_args lw ∈ pre_updates t \/ lw_args lw ∈ tail).
  { intros lw Hin.
    assert (Hin' : lw_args lw ∈ map lw_args (fst (replay job_id (jobs w) uts))).
    { apply list_elem_of_In, in_map, list_elem_of_In, Hin. }
    rewrite Hargs, Hu, elem_of_app in Hin'.
    destruct Hin' as [Hin'|Hin']; [left|by right].
    destruct Hpre as [k ->]. apply elem_of_app. by left. }
  split; [done|]. split; [by rewrite written_progress_args, Hargs, Hu|].
  split; [|split; [|split]].
  - intros lw Hin Hst. destruct (Helem lw Hin) as [He|He].
    + by destruct (pre_updates_elem t _ He) as [Hne _].
    + by apply (Htail _ He).
  - intros lw t' Hin Hit. destruct (Helem lw Hin) as [He|He].
    + destruct (pre_updates_elem t _ He) as [_ Heq]. by apply Heq.
    + destruct (Htail _ He) as [_ Hty]. rewrite Hty in Hit. done.
  - rewrite Hlen. by rewrite <- (length_map fst uts), <- Hargs, length_map.
  - apply chain_sorted, Hchain. rewrite Hu.
    destruct Hsteps as [k Hk].
    apply chain_app_l with k. rewrite <- Hk. by apply chain_progress_steps.
Qed.
(** A new job with its upload in place, no hint. *)
Lemma process_image_progress_example :
  let w := example_world uploaded in
  exists writes t,
    ledger_log (snd (process_image example_env "job-0" "a.png" None w))
      = ledger_log w ++ writes /\
    written_progress writes `prefix_of` progress_steps t /\
    (forall lw, lw ∈ writes -> u_status (lw_args lw) = Some FAILED ->
       u_progress (lw_args lw) = None) /\
    (forall lw t', lw ∈ writes -> u_input_type (lw_args lw) = Some t' ->
       t' = t) /\
    length (observed_progress writes) = length writes /\
    StronglySorted Z.le (progress new_job :: observed_progress writes).
Proof.
  intros w.
  apply (process_image_progress_nondecreasing example_env "job-0" "a.png"
           None w new_job).
  - exact (lookup_singleton_eq "job-0" new_job).
  - simpl. lia.
Defined.

(** ** A completed run *)

Lemma latest_pre_updates_type t old :
  latest u_input_type (pre_updates t) old = Some t.
Proof. unfold pre_updates. by destruct (bool_decide (t = OBJECT)). Qed.

(** C2: when [process_image] returns, the row of the job is Completed at
    progress 100 with the input type [t] that was written (the hint, when
    there is one); the run created a color and a depth asset, and a mask
    asset exactly when [t] is Object; and the keys of [outputs] are the
    types of the assets created. *)
Theorem process_image_completed_outputs env job_id filename hint w row w' :
  jobs w !! job_id = Some row ->
  process_image env job_id filename hint w = (Ok tt, w') ->
  exists row' t outs new_assets,
    jobs w' !! job_id = Some row' /\
    status row' = COMPLETED /\
    progress row' = 100 /\
    input_type row' = Some t /\
    (forall h, hint = Some h -> t = h) /\
    outputs row' = Some outs /\
    assets w' = assets w ++ new_assets /\
    Forall (fun r => asset_job_id r = job_id) new_assets /\
    (t = OBJECT ->
       dom outs = {["color"; "depth"; "mask"]} /\
       map asset_type new_assets = ["color"; "depth"; "mask"]) /\
    (t <> OBJECT ->
       dom outs = {["color"; "depth"]} /\
       map asset_type new_assets = ["color"; "depth"]).
Proof.
  intros Hrow Hrun.
  destruct (process_image_writes env job_id filename hint w row Hrow)
    as (t & uts & rows & _ & Hj & Ha & Hall & Hr).
  rewrite Hrun in *. cbn [fst snd] in *.
  destruct Hr as (outs & Hh & Hd & Hu & Hk).
  destruct (final_row_fields uts row) as (Hs & Hi & Hp & _ & Ho).
  rewrite Hu in Hs, Hi, Hp, Ho.
  rewrite latest_snoc in Hs. rewrite latest_snoc in Hi.
  rewrite latest_snoc in Hp. rewrite latest_snoc in Ho.
  cbn [upd_completed u_status u_input_type u_progress u_outputs] in *.
  rewrite latest_pre_updates_type in Hi.
  exists (final_row row uts), t, outs, rows.
  split; [done|]. split; [congruence|]. split; [congruence|].
  split; [done|]. split; [done|]. split; [done|]. split; [done|].
  split; [done|]. unfold output_keys, asset_types in *.
  split; intros Ht.
  - subst t. by rewrite Hd, Hk.
  - rewrite bool_decide_eq_false_2 in Hd, Hk by done. by rewrite Hd, Hk.
Qed.
(** A new job hinted Object, with its upload in place. *)
Lemma process_image_completed_example :
  let w := example_world uploaded in
  let w' := snd (process_image example_env "job-0" "a.png" (Some OBJECT) w) in
  exists row' t outs new_assets,
    jobs w' !! "job-0" = Some row' /\
    status row' = COMPLETED /\
    progress row' = 100 /\
    input_type row' = Some t /\
    (forall h, Some OBJECT = Some h -> t = h) /\
    outputs row' = Some outs /\
    assets w' = assets w ++ new_assets /\
    Forall (fun r => asset_job_id r = "job-0") new_assets /\
    (t = OBJECT ->
       dom outs = {["color"; "depth"; "mask"]} /\
       map asset_type new_assets = ["color"; "depth"; "mask"]) /\
    (t <> OBJECT ->
       dom outs = {["color"; "depth"]} /\
       map asset_type new_assets = ["color"; "depth"]).
Proof.
  intros w w'.
  apply (process_image_completed_outputs example_env "job-0" "a.png"
           (Some OBJECT) w new_job w').
  - exact (lookup_singleton_eq "job-0" new_job).
  - vm_compute. reflexivity.
Defined.

(** ** A failed run *)

Lemma latest_none {A : Type} (f : JobUpdate -> option A) us old :
  Forall (fun u => f u = None) us -> latest f us old = old.
Proof.
  intros Hall. revert old. induction Hall as [|u us Hu _ IH]; intros old; [done|].
  unfold latest in *. simpl. rewrite Hu. apply IH.
Qed.

(** The updates of a run before the last one: the first sets the job
    Processing and the others leave the status. *)
Lemma pre_updates_statuses t us :
  us `prefix_of` pre_updates t ->
  us = [] \/
  exists rest, us = upd_processing :: rest /\
               Forall (fun u => u_status u = None) rest.
Proof.
  intros [k Hk]. destruct us as [|u rest]; [by left|]. right.
  unfold pre_updates in Hk. simpl in Hk. injection Hk as <- Hk. exists rest.
  split; [done|].
  assert (Hall : Forall (fun u => u_status u = None) (rest ++ k)).
  { rewrite <- Hk. destruct (bool_decide (t = OBJECT)); by repeat constructor. }
  by apply Forall_app in Hall as [Hall _].
Qed.

Lemma latest_status_prefix t us old :
  us `prefix_of` pre_updates t ->
  us = [] \/ latest u_status us old = Some PROCESSING.
Proof.
  intros Hp. destruct (pre_updates_statuses t us Hp) as [->|(rest & -> & Hr)];
    [by left|right].
  change (latest u_status rest (Some PROCESSING) = Some PROCESSING).
  by apply latest_none.
Qed.

Lemma pre_updates_no_error t us old_error old_outputs :
  us `prefix_of` pre_updates t ->
  latest u_error us old_error = old_error /\
  latest u_outputs us old_outputs = old_outputs.
Proof.
  intros [k Hk].
  assert (Hall : Forall (fun u => u_error u = None /\ u_outputs u = None)
                   (us ++ k)).
  { rewrite <- Hk. unfold pre_updates.
    destruct (bool_decide (t = OBJECT)); by repeat constructor. }
  apply Forall_app in Hall as [Hall _]. clear Hk.
  split; apply latest_none; eapply Forall_impl; try exact Hall; by intros u [? ?].
Qed.







(** * Properties of the rest of the service *)

(** ** What every step of a run preserves *)

Section Respects.

Context (R : World -> World -> Prop) `{!Reflexive R, !Transitive R}.
Context {A B : Type}.

Lemma respects_ret (a : A) : respects R (mret a : M A).
Proof. intros w. simpl. reflexivity. Qed.

Lemma respects_lift (r : PyResult A) : respects R (lift r).
Proof. intros w. simpl. reflexivity. Qed.

Lemma respects_raise (e : PyExc) : respects R (raise e : M A).
Proof. intros w. simpl. reflexivity. Qed.

Lemma respects_bind (m : M A) (k : A -> M B) :
  respects R m -> (forall a, respects R (k a)) -> respects R (m ≫= k).
Proof.
  intros Hm Hk w. specialize (Hm w). unfold mbind, M_bind.
  destruct (m w) as [[a|e] w1]; simpl in *; [|done].
  transitivity w1; [done|apply Hk].
Qed.

Lemma respects_try (body : M A) (handler : PyExc -> M A) :
  respects R body -> (forall e, respects R (handler e)) ->
  respects R (try_except body handler).
Proof.
  intros Hm Hk w. specialize (Hm w). unfold try_except.
  destruct (body w) as [[a|e] w1]; simpl in *; [done|].
  transitivity w1; [done|apply Hk].
Qed.

End Respects.

Lemma respects_path_exists R `{!Reflexive R} path : respects R (path_exists path).
Proof. intros w. simpl. reflexivity. Qed.

Lemma respects_Image_open R `{!Reflexive R} env path :
  respects R (Image_open env path).
Proof.
  intros w. unfold Image_open. destruct (files w !! path); simpl; reflexivity.
Qed.

Lemma allowed_calls_elem env hint name :
  name ∈ allowed_calls env hint <->
  name = "generate_depth_replicate" /\ truthy (REPLICATE_API_TOKEN env) = true \/
  name = "generate_depth_hf" /\ truthy (HF_API_TOKEN env) = true \/
  name = "classify_with_hf" /\ truthy (HF_API_TOKEN env) = true /\ hint = None.
Proof.
  unfold allowed_calls.
  destruct (truthy (REPLICATE_API_TOKEN env)), (truthy (HF_API_TOKEN env)),
    hint; simpl; rewrite ?elem_of_cons, ?elem_of_nil;
    intuition (try discriminate; auto).
Qed.

(** A relation kept by the ledger update, the clock, the fresh
    identifiers, the console, the writing of the job's asset files, the
    insertion of its asset rows and the remote calls the configuration
    allows is kept by the whole run. *)
Section RespectsRun.

Context (R : World -> World -> Prop) `{!Reflexive R, !Transitive R}.
Variable env : Env.
Variables job_id filename : string.
Variable hint : option InputType.

Hypothesis R_update :
  forall u, respects R (db_update_job (db_fault env) job_id u).
Hypothesis R_utcnow : respects R utcnow.
Hypothesis R_uuid4 : respects R uuid4.
Hypothesis R_print : forall line, respects R (print line).
Hypothesis R_write : forall kind data,
  kind ∈ asset_kinds ->
  respects R (write_file (get_asset_path job_id kind ".png") data).
Hypothesis R_insert : forall row,
  asset_job_id row = job_id -> respects R (insert_asset row).
Hypothesis R_remote : forall (X : Type) name (outcome : PyResult X),
  name ∈ allowed_calls env hint -> respects R (remote name outcome).

Ltac r_bind := refine (respects_bind R _ _ _ _).
Ltac r_try := refine (respects_try R _ _ _ _).

Ltac solve_respects :=
  repeat match goal with
    | |- respects _ (mret _) => refine (respects_ret R _)
    | |- respects _ (lift _) => refine (respects_lift R _)
    | |- respects _ (raise _) => refine (respects_raise R _)
    | |- respects _ (path_exists _) => refine (respects_path_exists R _)
    | |- respects _ (Image_open _ _) => refine (respects_Image_open R _ _)
    | |- respects _ (db_update_job _ _ _) => apply R_update
    | |- respects _ utcnow => apply R_utcnow
    | |- respects _ uuid4 => apply R_uuid4
    | |- respects _ (print _) => apply R_print
    | |- respects _ (_ ≫= _) => r_bind; [|intros ?]
    | |- respects _ (try_except _ _) => r_try; [|intros ?]
    end.

Lemma respects_classify_image image :
  hint = None -> respects R (classify_image env image).
Proof.
  intros Hh. unfold classify_image, classify_with_hf.
  destruct (size image) as [width height].
  r_bind; [solve_respects|]. intros r.
  destruct (flt lit_1_5 r); [solve_respects|].
  destruct (flt r lit_0_75); [solve_respects|].
  r_bind; [|intros [t|]; solve_respects].
  destruct (truthy (HF_API_TOKEN env)) eqn:Et; [|solve_respects].
  r_try; [|intros ?; solve_respects].
  r_bind; [|intros ?; solve_respects].
  apply R_remote, allowed_calls_elem. auto.
Qed.

Lemma respects_generate_depth_map image :
  respects R (generate_depth_map env image).
Proof.
  unfold generate_depth_map, generate_depth_replicate, generate_depth_hf.
  r_bind; [|intros [d|]; [solve_respects|]].
  - destruct (truthy (REPLICATE_API_TOKEN env)) eqn:Et; [|solve_respects].
    r_try; [|intros ?; solve_respects].
    r_bind; [|intros ?; solve_respects].
    apply R_remote, allowed_calls_elem. auto.
  - r_bind; [|intros [d|]; solve_respects].
    destruct (truthy (HF_API_TOKEN env)) eqn:Et; [|solve_respects].
    r_try; [|intros ?; solve_respects].
    r_bind; [|intros ?; solve_respects].
    apply R_remote, allowed_calls_elem. auto.
Qed.

Lemma respects_generate_mask image : respects R (generate_mask env image).
Proof.
  unfold generate_mask, generate_mask_replicate.
  r_bind; [|intros [d|]; solve_respects].
  destruct (truthy (REPLICATE_API_TOKEN env)); solve_respects.
Qed.

Lemma respects_store_asset kind image width height :
  kind ∈ asset_kinds ->
  respects R (store_asset env job_id kind image width height).
Proof.
  intros Hk. unfold store_asset, save_png, save_asset, db_create_asset.
  r_bind; [solve_respects|]. intros buffer.
  r_bind; [|intros ?].
  - destruct (fs_fault env _); [solve_respects|].
    r_bind; [by apply R_write|intros ?; solve_respects].
  - r_bind; [solve_respects|]. intros aid.
    r_bind; [solve_respects|]. intros now.
    r_bind; [by apply R_insert|intros ?; solve_respects].
Qed.

Lemma respects_process_image :
  respects R (process_image env job_id filename hint).
Proof.
  unfold process_image.
  r_try; [|intros e; solve_respects].
  r_bind; [solve_respects|]. intros ?.
  r_bind; [solve_respects|]. intros found.
  r_bind; [destruct found; solve_respects|]. intros ?.
  r_bind; [solve_respects|]. intros image.
  destruct (size image) as [width height].
  r_bind; [solve_respects|]. intros ?.
  r_bind; [|intros input_type].
  { assert (H : forall h, h = hint ->
              respects R (match h with
                          | Some t => mret t
                          | None => classify_image env image
                          end)).
    { intros [t|] Hh; [solve_respects|]. by apply respects_classify_image. }
    by apply H. }
  r_bind; [solve_respects|]. intros ?.
  r_bind; [solve_respects|]. intros ?.
  r_bind; [apply respects_generate_depth_map|].
  intros depth_image.
  r_bind; [solve_respects|]. intros ?.
  r_bind; [apply respects_store_asset; repeat constructor|].
  intros color_asset_id.
  r_bind; [apply respects_store_asset; repeat constructor|].
  intros depth_asset_id.
  r_bind; [|intros outputs; solve_respects].
  destruct (bool_decide (input_type = OBJECT)); [|solve_respects].
  r_bind; [solve_respects|]. intros ?.
  r_bind; [apply respects_generate_mask|]. intros mask.
  r_bind; [apply respects_store_asset; repeat constructor|].
  intros ?. solve_respects.
Qed.

End RespectsRun.

(** ** The four relations are preorders *)

#[local] Instance same_other_jobs_refl job_id : Reflexive (same_other_jobs job_id).
Proof. by intros w. Qed.

#[local] Instance same_other_jobs_trans job_id :
  Transitive (same_other_jobs job_id).
Proof.
  intros w1 w2 w3 [H1 H2] [H3 H4]. split; [congruence|].
  intros other Ho. by rewrite H4, H2.
Qed.

#[local] Instance files_kept_refl job_id : Reflexive (files_kept job_id).
Proof. by intros w. Qed.

#[local] Instance files_kept_trans job_id : Transitive (files_kept job_id).
Proof.
  intros w1 w2 w3 [H1 H2] [H3 H4]. split; [auto|].
  intros path Hp. by rewrite H4, H2.
Qed.

#[local] Instance calls_among_refl allowed : Reflexive (calls_among allowed).
Proof. intros w. exists []. by rewrite app_nil_r. Qed.

#[local] Instance calls_among_trans allowed : Transitive (calls_among allowed).
Proof.
  intros w1 w2 w3 (l1 & H1 & H2) (l2 & H3 & H4). exists (l1 ++ l2).
  split; [by rewrite H3, H1, app_assoc|]. by apply Forall_app.
Qed.

#[local] Instance assets_appended_refl job_id :
  Reflexive (assets_appended job_id).
Proof. intros w. exists []. by rewrite app_nil_r. Qed.

#[local] Instance assets_appended_trans job_id :
  Transitive (assets_appended job_id).
Proof.
  intros w1 w2 w3 (l1 & H1 & H2 & H3) (l2 & H4 & H5 & H6). exists (l1 ++ l2).
  split; [by rewrite H4, H1, app_assoc|]. split; [by apply Forall_app|auto].
Qed.

(** ** The ledger update and the other rows *)

Lemma update_job_other_rows now job_id st it pr er out
    (jobs0 : gmap string JobRow) :
  dom (fst (update_job now job_id st it pr er out jobs0)) = dom jobs0 /\
  forall other, other <> job_id ->
    fst (update_job now job_id st it pr er out jobs0) !! other = jobs0 !! other.
Proof.
  unfold update_job.
  destruct (append_if _ _ _) as [|a l]; [done|].
  destruct (jobs0 !! job_id) as [row|] eqn:E; [|done]. simpl. split.
  - rewrite dom_insert_L. apply subseteq_union_1_L, singleton_subseteq_l.
    by apply elem_of_dom_2 in E.
  - intros other Ho. by rewrite lookup_insert_ne.
Qed.

Lemma db_update_job_same_other_jobs fault job_id u :
  respects (same_other_jobs job_id) (db_update_job fault job_id u).
Proof.
  intros w. unfold db_update_job.
  destruct (if nothing_to_update u then None else fault (clock w)); [done|].
  pose proof (update_job_other_rows (clock w) job_id (u_status u)
                (u_input_type u) (u_progress u) (u_error u) (u_outputs u)
                (jobs w)) as H.
  by destruct (update_job _ _ _ _ _ _ _ _).
Qed.

(** ** A run and the other jobs *)

(** A primitive that leaves alone what the relation is about. *)
Ltac solve_prim :=
  intros; intros ?; unfold insert_asset; try case_bool_decide; done.

(** X1: [process_image] changes no row but the one of its job, and neither
    inserts nor deletes a row; for a job that is not in the ledger it
    leaves the table as it was. *)
Theorem process_image_other_jobs env job_id filename hint w :
  let w' := snd (process_image env job_id filename hint w) in
  dom (jobs w') = dom (jobs w) /\
  (forall other, other <> job_id -> jobs w' !! other = jobs w !! other) /\
  (jobs w !! job_id = None -> jobs w' = jobs w).
Proof.
  intros w'.
  assert (H : same_other_jobs job_id w w').
  { apply (respects_process_image (same_other_jobs job_id));
      first [apply db_update_job_same_other_jobs | solve_prim]. }
  destruct H as [Hd Ho]. split; [done|]. split; [done|].
  intros Hn. apply map_eq. intros k.
  destruct (decide (k = job_id)) as [->|Hk]; [|by apply Ho].
  rewrite Hn. apply not_elem_of_dom. rewrite Hd. by apply not_elem_of_dom.
Qed.

(** ** A run and the blob store *)

(** A field that a primitive leaves as it was. *)
Ltac solve_field :=
  unfold insert_asset, db_update_job;
  try case_bool_decide;
  try match goal with
      | |- context [if nothing_to_update ?u then None else ?f] =>
          destruct (if nothing_to_update u then None else f)
      end;
  try match goal with
      | |- context [update_job ?a ?b ?c ?d ?e ?f ?g ?h] =>
          destruct (update_job a b c d e f g h)
      end;
  reflexivity.

Lemma files_kept_same job_id w w' :
  files w' = files w -> files_kept job_id w w'.
Proof. intros H. split; intros path; by rewrite H. Qed.

Lemma write_file_files_kept job_id kind data :
  kind ∈ asset_kinds ->
  respects (files_kept job_id)
    (write_file (get_asset_path job_id kind ".png") data).
Proof.
  intros Hk w. split; simpl.
  - intros path [x Hx].
    destruct (decide (get_asset_path job_id kind ".png" = path)) as [->|Hn].
    + rewrite lookup_insert_eq. by eexists.
    + rewrite lookup_insert_ne by done. by eexists.
  - intros path Hp. apply lookup_insert_ne. intros <-. apply Hp.
    by exists kind.
Qed.

Lemma upload_not_asset_file job_id filename :
  ~ asset_file job_id (Local.get_upload_path job_id filename).
Proof. intros (kind & _ & H). discriminate H. Qed.

(** X2: [process_image] removes no file and writes none but
    [color.png], [depth.png] and [mask.png] in the asset directory of its
    job; the upload it reads is left as it was. *)
Theorem process_image_files env job_id filename hint w :
  let w' := snd (process_image env job_id filename hint w) in
  (forall path, is_Some (files w !! path) -> is_Some (files w' !! path)) /\
  (forall path,
     (forall kind, kind ∈ ["color"; "depth"; "mask"] ->
        path <> get_asset_path job_id kind ".png") ->
     files w' !! path = files w !! path) /\
  files w' !! Local.get_upload_path job_id filename
    = files w !! Local.get_upload_path job_id filename.
Proof.
  intros w'.
  assert (H : files_kept job_id w w').
  { apply (respects_process_image (files_kept job_id));
      try (intros; intros ?; apply files_kept_same; solve_field).
    apply write_file_files_kept. }
  destruct H as [H1 H2]. split; [done|]. split.
  - intros path Hp. apply H2. intros (kind & Hk & ->). by apply (Hp kind).
  - apply H2, upload_not_asset_file.
Qed.

(** ** A run and the remote providers *)

Lemma calls_among_same allowed w w' :
  remote_calls w' = remote_calls w -> calls_among allowed w w'.
Proof. intros H. exists []. by rewrite app_nil_r. Qed.

Lemma falsy_token (token : option string) :
  truthy token = false -> token = None \/ token = Some EmptyString.
Proof.
  destruct token as [[|c t]|]; [by right|discriminate|by left].
Qed.

(** With a hint the classifier is not consulted, so the run is the same
    whatever the classification provider would answer. *)
Lemma process_image_hint_ignores_classifier env job_id filename h cls :
  process_image
    (with_providers env cls (replicate_depth env) (hf_depth env))
    job_id filename (Some h)
  = process_image env job_id filename (Some h).
Proof. destruct env. reflexivity. Qed.

(** With neither credential the run is the same whatever the providers
    would answer. *)
Lemma process_image_no_token_ignores_providers env job_id filename hint
    cls rd hd :
  truthy (REPLICATE_API_TOKEN env) = false ->
  truthy (HF_API_TOKEN env) = false ->
  process_image (with_providers env cls rd hd) job_id filename hint
  = process_image env job_id filename hint.
Proof.
  intros Hr Hh. destruct env as [rt ht ? ? ? ? ? ? ?]. simpl in Hr, Hh.
  destruct (falsy_token _ Hr) as [->| ->], (falsy_token _ Hh) as [->| ->];
    reflexivity.
Qed.

(** X3: three functions of the pipeline send requests to a remote
    provider, [classify_with_hf], [generate_depth_replicate] and
    [generate_depth_hf].  The calls a run makes to them are among those its
    configuration and its hint allow: the depth model of Replicate only
    with a Replicate token, the two of Hugging Face only with that token,
    the classifier only when no hint is given, and none of them with
    neither token.  [generate_mask_replicate], which a run with a Replicate
    token enters for an Object, sends no request: it is the fallback mask
    and leaves the state as it was.  Accordingly the outcome and the final
    state of a run do not depend on what the classification provider would
    answer when a hint is given, nor on any provider when neither token is
    set. *)
Theorem process_image_remote_calls env job_id filename hint w :
  (exists calls,
     remote_calls (snd (process_image env job_id filename hint w))
       = remote_calls w ++ calls /\
     (forall name, name ∈ calls ->
        name = "generate_depth_replicate" /\
          truthy (REPLICATE_API_TOKEN env) = true \/
        name = "generate_depth_hf" /\ truthy (HF_API_TOKEN env) = true \/
        name = "classify_with_hf" /\ truthy (HF_API_TOKEN env) = true /\
          hint = None) /\
     (truthy (REPLICATE_API_TOKEN env) = false ->
      truthy (HF_API_TOKEN env) = false -> calls = [])) /\
  (forall image w0,
     generate_mask_replicate image w0 = (generate_fallback_mask image, w0)) /\
  (forall classification,
     hint <> None ->
     process_image
       (with_providers env classification (replicate_depth env) (hf_depth env))
       job_id filename hint w
     = process_image env job_id filename hint w) /\
  (forall classification depth_replicate depth_hf,
     truthy (REPLICATE_API_TOKEN env) = false ->
     truthy (HF_API_TOKEN env) = false ->
     process_image
       (with_providers env classification depth_replicate depth_hf)
       job_id filename hint w
     = process_image env job_id filename hint w).
Proof.
  split; [|split; [done|split]].
  - assert (H : calls_among (allowed_calls env hint) w
                  (snd (process_image env job_id filename hint w))).
    { apply (respects_process_image (calls_among (allowed_calls env hint)));
        try (intros; intros ?; apply calls_among_same; solve_field).
      intros X name outcome Hn w0. exists [name]. split; [done|].
      by apply Forall_singleton. }
    destruct H as (calls & Hc & Hall). exists calls. split; [done|].
    rewrite Forall_forall in Hall. split.
    + intros name Hn. by apply allowed_calls_elem, Hall.
    + intros Hr Hh. destruct calls as [|c l]; [done|].
      assert (Hc' : c ∈ allowed_calls env hint)
        by apply Hall, list_elem_of_here.
      apply allowed_calls_elem in Hc'. rewrite Hr, Hh in Hc'.
      by destruct Hc' as [[_ ?]|[[_ ?]|(_ & ? & _)]].
  - intros cls Hh. destruct hint as [h|]; [|done].
    by rewrite process_image_hint_ignores_classifier.
  - intros cls rd hd Hr Hh.
    by rewrite process_image_no_token_ignores_providers.
Qed.

(** ** A run and the asset table *)

Lemma assets_appended_same job_id w w' :
  assets w' = assets w -> assets_appended job_id w w'.
Proof. intros H. exists []. rewrite app_nil_r, H. by repeat split. Qed.

Lemma insert_asset_appended job_id row :
  asset_job_id row = job_id ->
  respects (assets_appended job_id) (insert_asset row).
Proof.
  intros Hr w. unfold insert_asset. case_bool_decide as Hin; [reflexivity|].
  exists [row]. simpl. split; [done|]. split; [by apply Forall_singleton|].
  intros Hnd. rewrite map_app. apply NoDup_app. split; [done|]. split.
  - intros x Hx Hx'. apply list_elem_of_singleton in Hx'. by subst x.
  - apply NoDup_singleton.
Qed.

Lemma process_image_assets_appended env job_id filename hint w :
  assets_appended job_id w (snd (process_image env job_id filename hint w)).
Proof.
  apply (respects_process_image (assets_appended job_id));
    try (intros; intros ?; apply assets_appended_same; solve_field).
  apply insert_asset_appended.
Qed.

(** X4: [process_image] only appends to the asset table, rows of its job,
    and identifiers that were distinct stay distinct. *)
Theorem process_image_assets env job_id filename hint w :
  exists rows,
    assets (snd (process_image env job_id filename hint w))
      = assets w ++ rows /\
    Forall (fun r => asset_job_id r = job_id) rows /\
    (NoDup (map asset_id (assets w)) ->
     NoDup (map asset_id
              (assets (snd (process_image env job_id filename hint w))))).
Proof. apply process_image_assets_appended. Qed.

(** ** Sequences of ledger updates *)

Lemma update_row_keys now u row :
  id (update_row now u row) = id row /\
  created_at (update_row now u row) = created_at row /\
  original_filename (update_row now u row) = original_filename row.
Proof. by destruct u as [[s|] [t|] [p|] [e|] [o|]]. Qed.

Lemma final_row_keys uts : forall row,
  id (final_row row uts) = id row /\
  created_at (final_row row uts) = created_at row /\
  original_filename (final_row row uts) = original_filename row.
Proof.
  induction uts as [|[u t] uts IH]; intros row; [done|].
  destruct (update_row_keys t u row) as (H1 & H2 & H3).
  destruct (IH (update_row t u row)) as (H4 & H5 & H6).
  unfold final_row in *. simpl. by rewrite H4, H5, H6.
Qed.

Lemma latest_is_Some {A : Type} (f : JobUpdate -> option A) us : forall old,
  is_Some old -> is_Some (latest f us old).
Proof.
  induction us as [|u us IH]; intros old Ho; [done|].
  unfold latest in *. simpl. apply IH. by destruct (f u).
Qed.

(** X5: after any sequence of [update_job] calls on a job of the ledger,
    each of the five columns holds the last value passed for it that was
    not [None], or its old value when there was none; so no call sets a
    column back to null, and [id], [created_at] and [original_filename]
    never change. *)
Theorem update_job_sequence job_id (jobs0 : gmap string JobRow) row
    (uts : list (JobUpdate * nat)) :
  jobs0 !! job_id = Some row ->
  exists row',
    snd (replay job_id jobs0 uts) !! job_id = Some row' /\
    Some (status row') = latest u_status (map fst uts) (Some (status row)) /\
    input_type row' = latest u_input_type (map fst uts) (input_type row) /\
    Some (progress row')
      = latest u_progress (map fst uts) (Some (progress row)) /\
    error row' = latest u_error (map fst uts) (error row) /\
    outputs row' = latest u_outputs (map fst uts) (outputs row) /\
    (is_Some (input_type row) -> is_Some (input_type row')) /\
    (is_Some (error row) -> is_Some (error row')) /\
    (is_Some (outputs row) -> is_Some (outputs row')) /\
    id row' = id row /\ created_at row' = created_at row /\
    original_filename row' = original_filename row.
Proof.
  intros Hrow. exists (final_row row uts).
  destruct (replay_final job_id uts jobs0 row Hrow) as [Hf _].
  destruct (final_row_fields uts row) as (H1 & H2 & H3 & H4 & H5).
  destruct (final_row_keys uts row) as (H6 & H7 & H8).
  split; [done|]. split; [done|]. split; [done|]. split; [done|].
  split; [done|]. split; [done|].
  rewrite H2, H4, H5. auto 10 using @latest_is_Some.
Qed.

(** A job created with a hint, then classified, failed and completed. *)
Lemma update_job_sequence_example :
  let row := mkJobRow "j1" PENDING 0 0 (Some OBJECT) 0 None "a.png" None in
  let uts := [(upd_classified LANDSCAPE, 1%nat);
              (upd_failed (mkExc OSError "disk full"), 2%nat);
              (upd_progress 40, 3%nat)] in
  exists row',
    snd (replay "j1" {["j1" := row]} uts) !! "j1" = Some row' /\
    status row' = FAILED /\ input_type row' = Some LANDSCAPE /\
    progress row' = 40 /\ error row' = Some "disk full" /\
    outputs row' = None /\ id row' = "j1".
Proof.
  intros row uts.
  destruct (update_job_sequence "j1" {["j1" := row]} row uts
              (lookup_singleton_eq "j1" row))
    as (row' & H1 & H2 & H3 & H4 & H5 & H6 & _ & _ & _ & H7 & _).
  exists row'. split; [exact H1|].
  injection H2 as H2. injection H4 as H4.
  repeat split; assumption.
Defined.

(** ** The blob store *)

Lemma prefix_append (p s : string) : String.prefix p (p +:+ s) = true.
Proof.
  induction p as [|a p IH]; simpl; [by destruct s|].
  by destruct (Ascii.ascii_dec a a).
Qed.

Lemma under_path_join dir name : Local.under dir (path_join dir name) = true.
Proof.
  unfold Local.under, path_join.
  induction dir as [|a dir IH]; simpl.
  - by destruct name.
  - by destruct (Ascii.ascii_dec a a).
Qed.

(** A directory with a file under it exists, so the check of the
    directory in [get_asset_by_id] never changes its result. *)
Lemma get_asset_by_id_file asset_id job_id filename w :
  let path := path_join (path_join ASSETS_DIR job_id) filename in
  Local.get_asset_by_id asset_id job_id filename w =
    (Ok (if bool_decide (is_Some (files w !! path)) then Some path else None),
     w).
Proof.
  intros path. unfold Local.get_asset_by_id, Local.dir_exists, path_exists.
  unfold mbind, M_bind. fold path. case_bool_decide as Hd; simpl; [done|].
  case_bool_decide as Hf; [|done].
  destruct Hf as [data Hf].
  by destruct (map_filter_empty_not_lookup _ _ path data Hd
                 (under_path_join _ filename)).
Qed.

(** X6: [save_asset] on a path without fault stores the bytes and returns
    the path; [get_asset] and [get_asset_by_id] then find it, and no other
    file has changed.  On a faulty path it raises the fault and writes
    nothing. *)
Theorem save_asset_get_asset fault job_id asset_type data extension asset_id w :
  let path := get_asset_path job_id asset_type extension in
  let w' := snd (save_asset fault job_id asset_type data extension w) in
  match fault path with
  | None =>
      save_asset fault job_id asset_type data extension w = (Ok path, w') /\
      files w' !! path = Some data /\
      (forall other, other <> path -> files w' !! other = files w !! other) /\
      Local.get_asset job_id asset_type extension w' = (Ok (Some path), w') /\
      Local.get_asset_by_id asset_id job_id (asset_type +:+ extension) w'
        = (Ok (Some path), w')
  | Some e =>
      save_asset fault job_id asset_type data extension w = (Raise e, w)
  end.
Proof.
  intros path w'. subst w'. unfold save_asset. fold path.
  destruct (fault path) as [e|]; [done|]. simpl.
  assert (Hp : forall fs : gmap string string,
            (<[path := data]> fs) !! path = Some data)
    by (intros; apply lookup_insert_eq).
  split; [done|]. split; [apply Hp|]. split.
  { intros other Ho. by apply lookup_insert_ne. }
  split.
  - unfold Local.get_asset, path_exists, mbind, M_bind. fold path. simpl.
    rewrite Hp. by rewrite bool_decide_eq_true_2 by by eexists.
  - rewrite get_asset_by_id_file. simpl.
    change (path_join (path_join ASSETS_DIR job_id) (asset_type +:+ extension))
      with path.
    rewrite Hp. by rewrite bool_decide_eq_true_2 by by eexists.
Qed.

(** X7: for a job id and a file name that are plain names, [save_upload]
    on a path without fault stores the uploaded bytes at the path
    [process_image] reads, [get_upload] then finds it, and no other file
    has changed.  (The route passes the file name of the client as it
    comes; for a name that is absolute or has [..] in it the file written
    lies elsewhere.) *)
Theorem save_upload_get_upload fault job_id filename file w :
  let path := path_join (path_join UPLOADS_DIR job_id) filename in
  let w' := snd (Local.save_upload fault job_id filename file w) in
  plain_name job_id = true -> plain_name filename = true ->
  fault path = None ->
  Local.save_upload fault job_id filename file w = (Ok path, w') /\
  files w' !! path = Some file /\
  (forall other, other <> path -> files w' !! other = files w !! other) /\
  Local.get_upload job_id filename w' = (Ok (Some path), w').
Proof.
  intros path w' _ _ Hf. subst w'.
  unfold Local.save_upload, Local.get_upload_path. fold path. rewrite Hf. simpl.
  assert (Hp : (<[path := file]> (files w)) !! path = Some file)
    by apply lookup_insert_eq.
  split; [done|]. split; [apply Hp|]. split.
  { intros other Ho. by apply lookup_insert_ne. }
  unfold Local.get_upload, Local.get_upload_path, path_exists, mbind, M_bind.
  fold path. simpl. rewrite Hp. by rewrite bool_decide_eq_true_2 by by eexists.
Qed.

Lemma save_upload_get_upload_example :
  let w := example_world ∅ in
  let path := "data/storage/uploads/job-0/a.png" in
  let w' := snd (Local.save_upload (fun _ => None) "job-0" "a.png" "raw" w) in
  Local.save_upload (fun _ => None) "job-0" "a.png" "raw" w = (Ok path, w') /\
  files w' !! path = Some "raw" /\
  (forall other, other <> path -> files w' !! other = files w !! other) /\
  Local.get_upload "job-0" "a.png" w' = (Ok (Some path), w').
Proof.
  intros w path w'.
  apply (save_upload_get_upload (fun _ => None) "job-0" "a.png" "raw" w);
    reflexivity.
Defined.

(** Removing a directory that does not exist removes nothing. *)
Lemma rmtree_if_exists dir w :
  exists w',
    (there ← Local.dir_exists dir;
     if there : bool then Local.rmtree dir else mret tt) w = (Ok tt, w') /\
    files w' = filter (fun kv => Local.under dir kv.1 = false) (files w) /\
    jobs w' = jobs w /\ assets w' = assets w.
Proof.
  unfold Local.dir_exists, mbind, M_bind. case_bool_decide as Hd.
  - by eexists.
  - exists w. split; [done|]. split; [|done]. symmetry. apply map_filter_id.
    intros path data Hp. simpl.
    destruct (Local.under dir path) eqn:Eu; [|done].
    by destruct (map_filter_empty_not_lookup _ _ path data Hd Eu).
Qed.

(** X8: for a job id that is a plain name, [delete_job_files] removes
    every file under the upload and asset directories of the job and no
    other file, so [get_upload] and [get_asset] find nothing under a plain
    file name for the job afterwards; the rows of the job and of its
    assets stay in the ledger.  (For the empty job id the two directories
    are those of all jobs.) *)
Theorem delete_job_files_clears job_id w :
  let upload_dir := path_join UPLOADS_DIR job_id in
  let asset_dir := path_join ASSETS_DIR job_id in
  let w' := snd (Local.delete_job_files job_id w) in
  plain_name job_id = true ->
  Local.delete_job_files job_id w = (Ok tt, w') /\
  (forall path,
     Local.under upload_dir path = true \/ Local.under asset_dir path = true ->
     files w' !! path = None) /\
  (forall path,
     Local.under upload_dir path = false ->
     Local.under asset_dir path = false ->
     files w' !! path = files w !! path) /\
  (forall filename,
     plain_name filename = true ->
     Local.get_upload job_id filename w' = (Ok None, w')) /\
  (forall asset_type extension,
     plain_name (asset_type +:+ extension) = true ->
     Local.get_asset job_id asset_type extension w' = (Ok None, w')) /\
  jobs w' = jobs w /\ assets w' = assets w.
Proof.
  intros upload_dir asset_dir w' _. subst w'. unfold Local.delete_job_files.
  fold upload_dir. fold asset_dir.
  destruct (rmtree_if_exists upload_dir w) as (w1 & E1 & F1 & J1 & A1).
  destruct (rmtree_if_exists asset_dir w1) as (w2 & E2 & F2 & J2 & A2).
  assert (E : (there ← Local.dir_exists upload_dir;
               _ ← (if there : bool then Local.rmtree upload_dir else mret tt);
               there ← Local.dir_exists asset_dir;
               if there : bool then Local.rmtree asset_dir else mret tt) w
              = (Ok tt, w2)).
  { revert E1 E2. unfold mbind, M_bind, Local.dir_exists.
    intros E1 E2. destruct (bool_decide _); simpl in *.
    - injection E1 as <-. exact E2.
    - injection E1 as <-. exact E2. }
  rewrite E. simpl.
  assert (Hgone : forall path,
            Local.under upload_dir path = true \/
            Local.under asset_dir path = true -> files w2 !! path = None).
  { intros path Hu. rewrite F2, F1. apply map_lookup_filter_None_2.
    destruct (files w !! path) as [data|] eqn:Ef.
    - right. intros x Hx Ha. simpl in Ha.
      apply map_lookup_filter_Some in Hx as [_ Hb]. simpl in Hb.
      destruct Hu; congruence.
    - left. apply map_lookup_filter_None_2. by left. }
  split; [done|]. split; [done|]. split.
  { intros path Hu Ha. rewrite F2, F1.
    destruct (files w !! path) as [data|] eqn:Ef.
    - apply map_lookup_filter_Some_2; [|done].
      by apply map_lookup_filter_Some_2.
    - apply map_lookup_filter_None_2. left.
      apply map_lookup_filter_None_2. by left. }
  split; [|split; [|split; congruence]].
  - intros filename _.
    pose proof (Hgone _ (or_introl (under_path_join upload_dir filename)))
      as Hg.
    unfold Local.get_upload, Local.get_upload_path, path_exists, mbind, M_bind.
    subst upload_dir. rewrite Hg.
    by rewrite bool_decide_eq_false_2 by by intros [? ?].
  - intros asset_type extension _.
    pose proof (Hgone _ (or_intror
                  (under_path_join asset_dir (asset_type +:+ extension))))
      as Hg.
    unfold Local.get_asset, get_asset_path, path_exists, mbind, M_bind.
    subst asset_dir. rewrite Hg.
    by rewrite bool_decide_eq_false_2 by by intros [? ?].
Qed.

Lemma delete_job_files_example :
  let w := example_world uploaded in
  let w' := snd (Local.delete_job_files "job-0" w) in
  Local.delete_job_files "job-0" w = (Ok tt, w') /\
  files w' !! "data/storage/uploads/job-0/a.png" = None /\
  Local.get_upload "job-0" "a.png" w' = (Ok None, w').
Proof.
  intros w w'.
  destruct (delete_job_files_clears "job-0" w eq_refl)
    as (E & Hgone & _ & Hupload & _).
  split; [exact E|]. split.
  - apply Hgone. left. reflexivity.
  - apply Hupload. reflexivity.
Defined.

(** ** The asset table *)

Lemma select_asset_fresh aid (rows : list AssetRow) :
  aid ∉ map asset_id rows -> filter (fun r => asset_id r = aid) rows = [].
Proof.
  induction rows as [|r rows IH]; [done|]. simpl. intros Hn.
  rewrite not_elem_of_cons in Hn. destruct Hn as [Hr Hn].
  rewrite filter_cons_False by done. by apply IH.
Qed.

(** X9: when [create_asset] returns an identifier, [get_asset] of that
    identifier returns the row it inserted, with the columns it was given
    (a [metadata] that is [None] or the empty dictionary is stored as
    null), and [get_assets_by_job] lists the row last for its job and
    lists the same rows as before for every other job. *)
Theorem create_asset_get_asset job_id kind filename ctype size meta w aid w' :
  db_create_asset job_id kind filename ctype size meta w = (Ok aid, w') ->
  exists row,
    Db.get_asset aid w' = (Ok (Some row), w') /\
    asset_id row = aid /\ asset_job_id row = job_id /\
    asset_type row = kind /\ asset_filename row = filename /\
    content_type row = ctype /\ asset_size row = size /\
    metadata row = match meta with
                   | Some d => if bool_decide (d = ∅) then None else Some d
                   | None => None
                   end /\
    assets w' = assets w ++ [row] /\
    Db.get_assets_by_job job_id w'
      = (Ok (Db.select_assets_by_job job_id (assets w) ++ [row]), w') /\
    (forall other, other <> job_id ->
       Db.select_assets_by_job other (assets w')
         = Db.select_assets_by_job other (assets w)).
Proof.
  unfold db_create_asset, uuid4, utcnow, insert_asset, mbind, M_bind. simpl.
  case_bool_decide as Hin; [done|]. intros [= <- <-]. eexists.
  unfold Db.get_asset, Db.get_assets_by_job, Db.select_asset,
    Db.select_assets_by_job. simpl.
  rewrite !filter_app, (select_asset_fresh _ _ Hin). simpl.
  rewrite filter_cons_True, filter_cons_True by done.
  repeat split; try done.
  intros other Ho. rewrite filter_app, filter_cons_False by done.
  by rewrite app_nil_r.
Qed.

Lemma create_asset_get_asset_example :
  let w := example_world ∅ in
  let w' := snd (db_create_asset "job-0" "color" "color.png" "image/png" 3
                   (Some ∅) w) in
  exists row,
    Db.get_asset "asset-0" w' = (Ok (Some row), w') /\
    asset_id row = "asset-0" /\ asset_job_id row = "job-0" /\
    asset_type row = "color" /\ asset_filename row = "color.png" /\
    content_type row = "image/png" /\ asset_size row = 3 /\
    metadata row = None /\
    assets w' = assets w ++ [row] /\
    Db.get_assets_by_job "job-0" w'
      = (Ok (Db.select_assets_by_job "job-0" (assets w) ++ [row]), w') /\
    (forall other, other <> "job-0" ->
       Db.select_assets_by_job other (assets w')
         = Db.select_assets_by_job other (assets w)).
Proof.
  intros w w'.
  assert (E : db_create_asset "job-0" "color" "color.png" "image/png" 3
                (Some ∅) w = (Ok "asset-0", w')) by (vm_compute; reflexivity).
  destruct (create_asset_get_asset "job-0" "color" "color.png" "image/png" 3
              (Some ∅) w "asset-0" w' E)
    as (row & H1 & H2 & H3 & H4 & H5 & H6 & H7 & H8 & H9).
  exists row. repeat split; try assumption; apply H9.
Defined.

(** ** The assets a completed run names *)

#[local] Instance kept_refl job_id : Reflexive (kept job_id).
Proof. intros w. split; reflexivity. Qed.

#[local] Instance kept_trans job_id : Transitive (kept job_id).
Proof. intros w1 w2 w3 [H1 H2] [H3 H4]. split; by etransitivity. Qed.

Lemma kept_same job_id w w' :
  files w' = files w -> assets w' = assets w -> kept job_id w w'.
Proof.
  intros H1 H2. split; [by apply files_kept_same|by apply assets_appended_same].
Qed.

Section Kept.

Variable env : Env.
Variable job_id : string.

Lemma kept_update u :
  respects (kept job_id) (db_update_job (db_fault env) job_id u).
Proof. intros w. apply kept_same; solve_field. Qed.

Lemma kept_utcnow : respects (kept job_id) utcnow.
Proof. intros w. by apply kept_same. Qed.

Lemma kept_uuid4 : respects (kept job_id) uuid4.
Proof. intros w. by apply kept_same. Qed.

Lemma kept_print line : respects (kept job_id) (print line).
Proof. intros w. by apply kept_same. Qed.

Lemma kept_remote {X : Type} name (outcome : PyResult X) :
  respects (kept job_id) (remote name outcome).
Proof. intros w. by apply kept_same. Qed.

Lemma kept_write kind data :
  kind ∈ asset_kinds ->
  respects (kept job_id) (write_file (get_asset_path job_id kind ".png") data).
Proof.
  intros Hk w. split; [by apply write_file_files_kept|].
  by apply assets_appended_same.
Qed.

Lemma kept_insert row :
  asset_job_id row = job_id -> respects (kept job_id) (insert_asset row).
Proof.
  intros Hr w. split; [|by apply insert_asset_appended].
  apply files_kept_same. solve_field.
Qed.

Lemma kept_classify_image image :
  respects (kept job_id) (classify_image env image).
Proof.
  apply (respects_classify_image (kept job_id) env None); [|done].
  intros. apply kept_remote.
Qed.

Lemma kept_generate_depth_map image :
  respects (kept job_id) (generate_depth_map env image).
Proof.
  apply (respects_generate_depth_map (kept job_id) env None);
    intros; first [apply kept_print | apply kept_remote].
Qed.

Lemma kept_generate_mask image :
  respects (kept job_id) (generate_mask env image).
Proof. apply (respects_generate_mask (kept job_id)). apply kept_print. Qed.

Lemma kept_store_asset kind image width height :
  kind ∈ asset_kinds ->
  respects (kept job_id) (store_asset env job_id kind image width height).
Proof.
  apply (respects_store_asset (kept job_id));
    auto using kept_utcnow, kept_uuid4, kept_write, kept_insert.
Qed.

Lemma stored_kept kind aid w w' :
  kept job_id w w' -> stored job_id kind aid w -> stored job_id kind aid w'.
Proof.
  intros [[Hf _] (rows & Ha & _)] (r & Hr & H). exists r.
  split; [rewrite Ha, elem_of_app; by left|].
  destruct H as (H1 & H2 & H3 & H4 & H5 & H6). repeat split; auto.
Qed.

Lemma store_asset_stored kind image width height w aid w' :
  store_asset env job_id kind image width height w = (Ok aid, w') ->
  stored job_id kind aid w'.
Proof.
  unfold store_asset, save_png, save_asset, db_create_asset, uuid4, utcnow,
    insert_asset, lift, mbind, M_bind.
  destruct (encode_png env image) as [buffer|e]; [|done].
  destruct (fs_fault env _) as [e|]; [done|]. simpl.
  case_bool_decide as Hin; [done|]. intros [= <- <-]. eexists.
  split; [apply elem_of_app; right; apply list_elem_of_here|]. simpl.
  repeat split; try done.
  unfold get_asset_path. rewrite lookup_insert_eq. by eexists.
Qed.

End Kept.

Section Stored.

Variable env : Env.
Variable job_id : string.

Local Abbreviation any := (fun (_ : PyExc) (_ : World) => True).

(** A step that keeps the store and the asset table, and the storing of
    an asset, each followed by the rest of the pipeline. *)
Lemma keep_step {A B : Type} (m : M A) (k : A -> M B) (P : World -> Prop) Q :
  respects (kept job_id) m ->
  (forall w w', kept job_id w w' -> P w -> P w') ->
  (forall a, triple P (k a) Q any) ->
  triple P (m ≫= k) Q any.
Proof.
  intros Hm HP Hk. eapply triple_bind; [|exact Hk].
  intros w Hw. specialize (Hm w). destruct (m w) as [[a|e] w1]; [|done].
  by apply (HP w).
Qed.

Lemma store_step {B : Type} kind image width height (k : string -> M B)
    (P : World -> Prop) Q :
  kind ∈ asset_kinds ->
  (forall w w', kept job_id w w' -> P w -> P w') ->
  (forall aid,
     triple (fun w => P w /\ stored job_id kind aid w) (k aid) Q any) ->
  triple P (store_asset env job_id kind image width height ≫= k) Q any.
Proof.
  intros Hkind HP Hk. eapply triple_bind; [|exact Hk].
  intros w Hw. pose proof (kept_store_asset env job_id kind image width height
                             Hkind w) as Hkept.
  destruct (store_asset env job_id kind image width height w)
    as [[aid|e] w1] eqn:E; [|done].
  split; [by apply (HP w)|]. by apply store_asset_stored in E.
Qed.

Lemma complete_step (outs : gmap string string) :
  triple (fun w => forall kind aid,
            outs !! kind = Some aid -> stored job_id kind aid w)
    (_ ← db_update_job (db_fault env) job_id (upd_completed outs); mret tt)
    (fun _ => completed_with_stored job_id) any.
Proof.
  intros w Hw. pose proof (kept_update env job_id (upd_completed outs) w) as Hk.
  unfold mbind, M_bind, db_update_job in *.
  destruct (if nothing_to_update _ then None else _); [done|].
  destruct (update_job _ _ _ _ _ _ _ _) as [jobs' changed]. simpl in *.
  eexists outs, _. split; [apply last_snoc|]. split; [done|].
  intros kind aid Ho. by apply (stored_kept job_id kind aid w), Hw.
Qed.

Lemma process_image_stored filename hint w w' :
  process_image env job_id filename hint w = (Ok tt, w') ->
  completed_with_stored job_id w'.
Proof.
  unfold process_image, try_except.
  match goal with |- context [match ?body w with _ => _ end] =>
    set (run := body)
  end.
  assert (Hbody : triple (fun _ => True) run
            (fun _ => completed_with_stored job_id) any).
  { subst run.
    apply keep_step; [apply kept_update|done|]. intros ?.
    apply keep_step; [intros w1; by apply kept_same|done|]. intros found.
    apply keep_step; [destruct found; intros w1; by apply kept_same|done|].
    intros ?.
    apply keep_step; [|done|].
    { apply (respects_Image_open (kept job_id)). }
    intros image. destruct (size image) as [width height].
    apply keep_step; [apply kept_update|done|]. intros ?.
    apply keep_step; [|done|].
    { destruct hint; [intros w1; by apply kept_same|].
      apply kept_classify_image. }
    intros input_type.
    apply keep_step; [apply kept_update|done|]. intros ?.
    apply keep_step; [apply kept_update|done|]. intros ?.
    apply keep_step; [apply kept_generate_depth_map|done|]. intros depth_image.
    apply keep_step; [apply kept_update|done|]. intros ?.
    apply store_step; [repeat constructor|done|]. intros cid.
    apply store_step; [repeat constructor| |].
    { intros w1 w2 Hk [_ Hs]. split; [done|]. by apply (stored_kept _ _ _ w1). }
    intros did.
    set (P2 := fun w1 => stored job_id "color" cid w1 /\
                         stored job_id "depth" did w1).
    assert (HP2 : forall w1 w2, kept job_id w1 w2 -> P2 w1 -> P2 w2).
    { intros w1 w2 Hk [H1 H2]. split; by apply (stored_kept _ _ _ w1). }
    apply triple_weaken with (P' := P2) (Q' := fun _ => completed_with_stored job_id)
      (E' := any); [|by intros w1 [[_ H1] H2]|done|done].
    eapply triple_bind
      with (Q := fun outs w1 => forall kind aid,
                   outs !! kind = Some aid -> stored job_id kind aid w1);
      [|intros outs; apply complete_step].
    case_bool_decide as Ht.
    - apply keep_step; [apply kept_update|exact HP2|]. intros ?.
      apply keep_step; [apply kept_generate_mask|exact HP2|]. intros mask.
      apply store_step; [repeat constructor|exact HP2|]. intros mid.
      intros w1 [[H1 H2] H3] kind aid. simpl.
      rewrite !lookup_insert_Some, lookup_empty.
      by intros [[<- <-]|[_ [[<- <-]|[_ [[<- <-]|[_ ?]]]]]].
    - intros w1 [H1 H2] kind aid. simpl.
      rewrite !lookup_insert_Some, lookup_empty.
      by intros [[<- <-]|[_ [[<- <-]|[_ ?]]]]. }
  specialize (Hbody w I). intros E.
  destruct (run w) as [[[]|e] w1].
  - by injection E as <-.
  - unfold mbind, M_bind in E.
    by destruct (db_update_job (db_fault env) job_id (upd_failed e) w1)
      as [[b|e'] w2].
Qed.

End Stored.

Lemma select_asset_NoDup (rows : list AssetRow) r :
  NoDup (map asset_id rows) -> r ∈ rows ->
  Db.select_asset (asset_id r) rows = Some r.
Proof.
  unfold Db.select_asset. induction rows as [|x rows IH]; simpl.
  - intros _ Hr. by apply elem_of_nil in Hr.
  - intros Hnd Hr. apply NoDup_cons in Hnd as [Hx Hnd].
    apply elem_of_cons in Hr as [->|Hr].
    + by rewrite filter_cons_True.
    + rewrite filter_cons_False; [by apply IH|].
      intros Heq. apply Hx. rewrite Heq.
      by apply list_elem_of_In, in_map, list_elem_of_In.
Qed.

(** The outputs a completed run leaves in the row of the job. *)
Lemma process_image_completed_row env job_id filename hint w row w' :
  jobs w !! job_id = Some row ->
  process_image env job_id filename hint w = (Ok tt, w') ->
  exists row' outs,
    jobs w' !! job_id = Some row' /\
    outputs row' = Some outs /\
    forall kind aid, outs !! kind = Some aid -> stored job_id kind aid w'.
Proof.
  intros Hrow Hrun.
  destruct (process_image_writes env job_id filename hint w row Hrow)
    as (t & uts & rows & Hl & Hj & _ & _ & Hr).
  destruct (process_image_stored env job_id filename hint w w' Hrun)
    as (outs' & lw' & Hlast & Hargs' & Hstored).
  rewrite Hrun in *. cbn [fst snd] in *.
  destruct Hr as (outs & _ & _ & Hu & _).
  pose proof (replay_args job_id uts (jobs w)) as Hargs. rewrite Hu in Hargs.
  destruct (map_snoc_inv _ _ _ _ Hargs) as (writes & lw & Hw & _ & Hlw).
  rewrite Hl, Hw, app_assoc, last_snoc in Hlast. injection Hlast as <-.
  rewrite Hlw in Hargs'. injection Hargs' as <-.
  destruct (final_row_fields uts row) as (_ & _ & _ & _ & Ho).
  rewrite Hu in Ho. rewrite latest_snoc in Ho.
  by exists (final_row row uts), outs.
Qed.

(** X10: when [process_image] returns, every identifier in the [outputs] of
    the row is the identifier of an asset row of the job whose type is the
    key, named [<type>.png] with content type [image/png], and the file of
    that name is in the asset directory of the job. *)
Theorem process_image_outputs_stored env job_id filename hint w row w' :
  jobs w !! job_id = Some row ->
  process_image env job_id filename hint w = (Ok tt, w') ->
  exists row' outs,
    jobs w' !! job_id = Some row' /\
    outputs row' = Some outs /\
    forall kind aid,
      outs !! kind = Some aid ->
      exists r,
        r ∈ assets w' /\ asset_id r = aid /\ asset_job_id r = job_id /\
        asset_type r = kind /\ asset_filename r = kind +:+ ".png" /\
        content_type r = "image/png" /\
        is_Some (files w' !! get_asset_path job_id kind ".png").
Proof.
  intros Hrow Hrun.
  destruct (process_image_completed_row env job_id filename hint w row w'
              Hrow Hrun) as (row' & outs & H1 & H2 & H3).
  exists row', outs. split; [done|]. split; [done|].
  intros kind aid Ho.
  destruct (H3 kind aid Ho) as (r & Hr & Hid & Hj & Hk & Hf & Hc & Hfile).
  exists r. rewrite Hf in Hfile. by repeat split.
Qed.

Lemma process_image_outputs_stored_example :
  let w := example_world uploaded in
  let w' := snd (process_image example_env "job-0" "a.png" (Some OBJECT) w) in
  exists row' outs,
    jobs w' !! "job-0" = Some row' /\
    outputs row' = Some outs /\
    forall kind aid,
      outs !! kind = Some aid ->
      exists r,
        r ∈ assets w' /\ asset_id r = aid /\ asset_job_id r = "job-0" /\
        asset_type r = kind /\ asset_filename r = kind +:+ ".png" /\
        content_type r = "image/png" /\
        is_Some (files w' !! get_asset_path "job-0" kind ".png").
Proof.
  intros w w'.
  apply (process_image_outputs_stored example_env "job-0" "a.png"
           (Some OBJECT) w new_job w').
  - exact (lookup_singleton_eq "job-0" new_job).
  - vm_compute. reflexivity.
Defined.

(** ** Downloading the assets of a completed run *)

(** X11: when [process_image] returns in a ledger whose asset identifiers
    are distinct, [GET /assets/{id}] of every identifier in [outputs]
    answers with the asset of the job whose type is the key, and
    [GET /assets/{id}/download] with its PNG file. *)
Theorem download_asset_after_run env job_id filename hint w row w' :
  jobs w !! job_id = Some row ->
  NoDup (map asset_id (assets w)) ->
  process_image env job_id filename hint w = (Ok tt, w') ->
  exists row' outs,
    jobs w' !! job_id = Some row' /\
    outputs row' = Some outs /\
    forall kind aid,
      outs !! kind = Some aid ->
      (exists a,
         Routes.get_asset_info aid w' = (Ok (Routes.Response a), w') /\
         Routes.a_id a = aid /\ Routes.a_job_id a = job_id /\
         Routes.a_asset_type a = kind) /\
      Routes.download_asset aid w' =
        (Ok (Routes.Response
               (Routes.mkFileResponse (get_asset_path job_id kind ".png")
                  "image/png" (kind +:+ ".png"))), w').
Proof.
  intros Hrow Hnd Hrun.
  destruct (process_image_completed_row env job_id filename hint w row w'
              Hrow Hrun) as (row' & outs & H1 & H2 & H3).
  destruct (process_image_assets_appended env job_id filename hint w)
    as (rows & _ & _ & Hnd').
  rewrite Hrun in Hnd'. specialize (Hnd' Hnd). simpl in Hnd'.
  exists row', outs. split; [done|]. split; [done|].
  intros kind aid Ho.
  destruct (H3 kind aid Ho) as (r & Hr & Hid & Hj & Hk & Hf & Hc & Hfile).
  pose proof (select_asset_NoDup _ _ Hnd' Hr) as Hsel. rewrite Hid in Hsel.
  split.
  - exists (Routes.AssetResponse_new r).
    unfold Routes.get_asset_info, Db.get_asset, mbind, M_bind.
    by rewrite Hsel.
  - unfold Routes.download_asset, Db.get_asset, mbind, M_bind. rewrite Hsel.
    rewrite get_asset_by_id_file, Hj.
    rewrite bool_decide_eq_true_2 by done. rewrite Hf, Hc. done.
Qed.

Lemma download_asset_after_run_example :
  let w := example_world uploaded in
  let w' := snd (process_image example_env "job-0" "a.png" (Some LANDSCAPE) w) in
  exists row' outs,
    jobs w' !! "job-0" = Some row' /\
    outputs row' = Some outs /\
    forall kind aid,
      outs !! kind = Some aid ->
      (exists a,
         Routes.get_asset_info aid w' = (Ok (Routes.Response a), w') /\
         Routes.a_id a = aid /\ Routes.a_job_id a = "job-0" /\
         Routes.a_asset_type a = kind) /\
      Routes.download_asset aid w' =
        (Ok (Routes.Response
               (Routes.mkFileResponse (get_asset_path "job-0" kind ".png")
                  "image/png" (kind +:+ ".png"))), w').
Proof.
  intros w w'.
  apply (download_asset_after_run example_env "job-0" "a.png"
           (Some LANDSCAPE) w new_job w').
  - exact (lookup_singleton_eq "job-0" new_job).
  - apply NoDup_nil_2.
  - vm_compute. reflexivity.
Defined.

(** ** Creating a job over HTTP *)

Lemma InputType_of_value_Ok value t :
  Routes.InputType_of_value value = Ok t <-> value = InputType_value t.
Proof.
  unfold Routes.InputType_of_value.
  destruct (String.eqb_spec value "object") as [->|H1].
  { split; [by intros [= <-]|by destruct t]. }
  destruct (String.eqb_spec value "landscape") as [->|H2].
  { split; [by intros [= <-]|by destruct t]. }
  destruct (String.eqb_spec value "unknown") as [->|H3].
  { split; [by intros [= <-]|by destruct t]. }
  split; [done|]. intros ->. by destruct t.
Qed.

(** X12: [POST /jobs] answers 400 for a file whose content type is missing
    or does not start with [image/], and for a hint that is not the value
    of a member of [InputType]; whenever it answers with an
    [HTTPException] it has created no job and stored no file. *)
Theorem create_job_rejects env file input_type_hint w :
  let is_image :=
    truthy (Routes.upload_content_type file) &&
    String.prefix "image/" (default "" (Routes.upload_content_type file)) in
  (is_image = false ->
   Routes.create_job env file input_type_hint w =
     (Ok (Routes.HTTPException 400 "File must be an image"), w)) /\
  (is_image = true -> truthy input_type_hint = true ->
   (forall t, input_type_hint <> Some (InputType_value t)) ->
   Routes.create_job env file input_type_hint w =
     (Ok (Routes.HTTPException 400
            "input_type_hint must be 'object' or 'landscape'"), w)) /\
  (forall code detail w',
     Routes.create_job env file input_type_hint w =
       (Ok (Routes.HTTPException code detail), w') ->
     w' = w /\ code = 400).
Proof.
  intros is_image. subst is_image. unfold Routes.create_job.
  destruct (truthy (Routes.upload_content_type file)); simpl;
    [|by repeat split; intros; unfold mret, M_ret in *; simplify_eq].
  destruct (String.prefix _ _); simpl;
    [|by repeat split; intros; unfold mret, M_ret in *; simplify_eq].
  split; [done|].
  destruct (truthy input_type_hint) eqn:Eh.
  - destruct input_type_hint as [value|]; [|done]. simpl.
    destruct (Routes.InputType_of_value value) as [t|e] eqn:Et.
    + apply InputType_of_value_Ok in Et. split.
      { intros _ _ Hn. by destruct (Hn t); f_equal. }
      intros code detail w'. unfold mbind, M_bind.
      destruct (db_create_job _ _ w) as [[job|e] w1]; [|done].
      destruct (Local.save_upload _ _ _ _ w1) as [[path|e] w2]; [|done].
      unfold lift. by destruct (Routes.JobResponse_new job).
    + split; [done|]. by intros code detail w' [= <- <- <-].
  - split; [done|]. intros code detail w'. unfold mbind, M_bind.
    destruct (db_create_job _ _ w) as [[job|e] w1]; [|done].
    destruct (Local.save_upload _ _ _ _ w1) as [[path|e] w2]; [|done].
    unfold lift. by destruct (Routes.JobResponse_new job).
Qed.



(** ** Polling a job after its run *)

Lemma pre_updates_progress_range t :
  Forall (fun p => 0 <= p <= 100) (omap u_progress (pre_updates t)).
Proof.
  unfold pre_updates. destruct (bool_decide (t = OBJECT)); simpl;
    repeat constructor; lia.
Qed.

Lemma latest_progress_range us p0 p :
  Forall (fun p => 0 <= p <= 100) (omap u_progress us) ->
  0 <= p0 <= 100 ->
  latest u_progress us (Some p0) = Some p -> 0 <= p <= 100.
Proof.
  intros Hus Hp0. rewrite latest_last. intros Hl.
  apply last_Some_elem_of in Hl.
  assert (Hall : Forall (fun p => 0 <= p <= 100) (p0 :: omap u_progress us))
    by by constructor.
  rewrite Forall_forall in Hall. by apply Hall.
Qed.

(** The answer to a poll after a run. *)
Lemma poll_after_run env job_id filename hint w row :
  let w' := snd (process_image env job_id filename hint w) in
  jobs w !! job_id = Some row ->
  0 <= progress row <= 100 ->
  exists r,
    Routes.get_job job_id w' = (Ok (Routes.Response r), w') /\
    Routes.r_id r = id row /\
    0 <= Routes.r_progress r <= 100 /\
    match fst (process_image env job_id filename hint w) with
    | Ok _ => Routes.r_status r = COMPLETED /\ Routes.r_progress r = 100
    | Raise e =>
        Routes.r_status r = FAILED /\ Routes.r_error r = Some (str e) \/
        (exists time, db_fault env time = Some e) /\
        (Routes.r_status r = PROCESSING \/ Routes.r_status r = status row) /\
        Routes.r_error r = error row
    end.
Proof.
  intros w' Hrow Hp. subst w'.
  destruct (process_image_writes env job_id filename hint w row Hrow)
    as (t & uts & rows & _ & Hj & _ & _ & Hr).
  destruct (final_row_fields uts row) as (Hs & _ & Hpr & He & _).
  assert (Hprefix : forall us, us `prefix_of` pre_updates t ->
            forall p, latest u_progress us (Some (progress row)) = Some p ->
            0 <= p <= 100).
  { intros us [k Hk] p. apply latest_progress_range; [|done].
    pose proof (pre_updates_progress_range t) as Hall.
    rewrite Hk, omap_app in Hall. by apply Forall_app in Hall as [Hall _]. }
  assert (Hrange : 0 <= progress (final_row row uts) <= 100 /\
            match fst (process_image env job_id filename hint w) with
            | Ok _ => status (final_row row uts) = COMPLETED /\
                      progress (final_row row uts) = 100
            | Raise e =>
                status (final_row row uts) = FAILED /\
                error (final_row row uts) = Some (str e) \/
                (exists time, db_fault env time = Some e) /\
                (status (final_row row uts) = PROCESSING \/
                 status (final_row row uts) = status row) /\
                error (final_row row uts) = error row
            end).
  { destruct (fst (process_image env job_id filename hint w)) as [[]|e].
    - destruct Hr as (outs & _ & _ & Hu & _). rewrite Hu in Hs, Hpr.
      rewrite latest_snoc in Hs. rewrite latest_snoc in Hpr. simpl in *.
      injection Hs as Hs. injection Hpr as Hpr. rewrite Hpr. by repeat split.
    - destruct Hr as (us & Hpre & [Hu|[Hu Hf]]); rewrite Hu in Hs, Hpr, He.
      + rewrite latest_snoc in Hs. rewrite latest_snoc in Hpr.
        rewrite latest_snoc in He. simpl in *. injection Hs as Hs.
        split; [|by left]. symmetry in Hpr. by apply (Hprefix us).
      + split; [symmetry in Hpr; by apply (Hprefix us)|]. right.
        split; [done|]. split.
        * destruct (latest_status_prefix t us (Some (status row)) Hpre)
            as [->|Hst].
          { right. by injection Hs. }
          left. rewrite Hst in Hs. by injection Hs.
        * rewrite He. by apply (pre_updates_no_error t us (error row) None). }
  destruct Hrange as [Hrange Hres].
  exists (Routes.mkJobResponse (id (final_row row uts))
            (status (final_row row uts)) (created_at (final_row row uts))
            (updated_at (final_row row uts)) (input_type (final_row row uts))
            (progress (final_row row uts)) (error (final_row row uts))
            (outputs (final_row row uts))).
  split; [|split; [|split; [done|]]].
  - unfold Routes.get_job, Db.get_job, Database.get_job, Routes.JobResponse_new,
      lift, mbind, M_bind, mret, M_ret. simpl. rewrite Hj.
    destruct Hrange as [H0 H100].
    apply Z.leb_le in H0. apply Z.leb_le in H100. by rewrite H0, H100.
  - simpl. by destruct (final_row_keys uts row) as [Hid _].
  - simpl. by destruct (fst (process_image env job_id filename hint w)).
Qed.

(** X14: once [process_image] has run on a job of the ledger whose progress
    was within 0..100, [GET /jobs/{id}] answers with the job, never with a
    validation error, at a progress within 0..100: Completed at progress
    100 when the run returned; when it raised [e], Failed with the text of
    [e], unless [e] is an error of the database raised by the update
    that was to record the failure: then the job is still Processing, or
    as it was before the run if no write landed, and its error is the
    one it had. *)
Theorem get_job_after_run env job_id filename hint w row :
  let w' := snd (process_image env job_id filename hint w) in
  jobs w !! job_id = Some row ->
  0 <= progress row <= 100 ->
  exists r,
    Routes.get_job job_id w' = (Ok (Routes.Response r), w') /\
    0 <= Routes.r_progress r <= 100 /\
    match fst (process_image env job_id filename hint w) with
    | Ok _ => Routes.r_status r = COMPLETED /\ Routes.r_progress r = 100
    | Raise e =>
        Routes.r_status r = FAILED /\ Routes.r_error r = Some (str e) \/
        (exists time, db_fault env time = Some e) /\
        (Routes.r_status r = PROCESSING \/ Routes.r_status r = status row) /\
        Routes.r_error r = error row
    end.
Proof.
  intros w' Hrow Hp.
  destruct (poll_after_run env job_id filename hint w row Hrow Hp)
    as (r & H1 & _ & H2 & H3).
  by exists r.
Qed.

Lemma get_job_after_run_example :
  let w := example_world ∅ in
  let w' := snd (process_image example_env "job-0" "a.png" None w) in
  exists r,
    Routes.get_job "job-0" w' = (Ok (Routes.Response r), w') /\
    0 <= Routes.r_progress r <= 100 /\
    match fst (process_image example_env "job-0" "a.png" None w) with
    | Ok _ => Routes.r_status r = COMPLETED /\ Routes.r_progress r = 100
    | Raise e =>
        Routes.r_status r = FAILED /\ Routes.r_error r = Some (str e) \/
        (exists time, db_fault example_env time = Some e) /\
        (Routes.r_status r = PROCESSING \/
         Routes.r_status r = status new_job) /\
        Routes.r_error r = error new_job
    end.
Proof.
  intros w w'.
  apply (get_job_after_run example_env "job-0" "a.png" None w new_job).
  - exact (lookup_singleton_eq "job-0" new_job).
  - simpl. lia.
Defined.

(** ** Listing the assets of a job *)

Lemma filter_Forall_id {A : Type} (P : A -> Prop) `{!forall x, Decision (P x)}
    (l : list A) :
  Forall P l -> filter P l = l.
Proof.
  induction 1 as [|x l Hx Hl IH]; [done|].
  by rewrite filter_cons_True, IH.
Qed.

(** X15: when [process_image] returns, [GET /assets/job/{id}] lists the
    assets the job had before followed by the new ones: a color and a
    depth asset, and a mask asset exactly when the input type written is
    Object. *)
Theorem get_job_assets_after_run env job_id filename hint w row w' :
  jobs w !! job_id = Some row ->
  process_image env job_id filename hint w = (Ok tt, w') ->
  exists t before new,
    Routes.get_job_assets job_id w = (Ok (Routes.Response (job_id, before)), w) /\
    Routes.get_job_assets job_id w'
      = (Ok (Routes.Response (job_id, before ++ new)), w') /\
    input_type <$> jobs w' !! job_id = Some (Some t) /\
    map Routes.a_asset_type new =
      ["color"; "depth"] ++ (if bool_decide (t = OBJECT) then ["mask"] else []) /\
    Forall (fun a => Routes.a_job_id a = job_id) new.
Proof.
  intros Hrow Hrun.
  destruct (process_image_writes env job_id filename hint w row Hrow)
    as (t & uts & rows & _ & Hj & Ha & Hall & Hr).
  rewrite Hrun in *. cbn [fst snd] in *.
  destruct Hr as (outs & _ & _ & Hu & Hk).
  destruct (final_row_fields uts row) as (_ & Hi & _).
  rewrite Hu in Hi. rewrite latest_snoc in Hi.
  cbn [upd_completed u_input_type] in Hi.
  rewrite latest_pre_updates_type in Hi.
  exists t, (map Routes.AssetResponse_new
               (Db.select_assets_by_job job_id (assets w))),
    (map Routes.AssetResponse_new rows).
  split; [done|]. split; [|split; [|split]].
  - unfold Routes.get_job_assets, Db.get_assets_by_job,
      Db.select_assets_by_job, mbind, M_bind, mret, M_ret.
    rewrite Ha, filter_app, (filter_Forall_id _ rows Hall). by rewrite map_app.
  - by rewrite Hj, <- Hi.
  - rewrite map_map. simpl. exact Hk.
  - rewrite Forall_forall in Hall. apply Forall_forall. intros a Ha'.
    apply list_elem_of_In, in_map_iff in Ha' as (x & <- & Hx).
    apply Hall. by apply list_elem_of_In.
Qed.

Lemma get_job_assets_after_run_example :
  let w := example_world uploaded in
  let w' := snd (process_image example_env "job-0" "a.png" (Some UNKNOWN) w) in
  exists t before new,
    Routes.get_job_assets "job-0" w
      = (Ok (Routes.Response ("job-0", before)), w) /\
    Routes.get_job_assets "job-0" w'
      = (Ok (Routes.Response ("job-0", before ++ new)), w') /\
    input_type <$> jobs w' !! "job-0" = Some (Some t) /\
    map Routes.a_asset_type new =
      ["color"; "depth"] ++ (if bool_decide (t = OBJECT) then ["mask"] else []) /\
    Forall (fun a => Routes.a_job_id a = "job-0") new.
Proof.
  intros w w'.
  apply (get_job_assets_after_run example_env "job-0" "a.png" (Some UNKNOWN)
           w new_job w').
  - exact (lookup_singleton_eq "job-0" new_job).
  - vm_compute. reflexivity.
Defined.

(** ** The classifier and the fallbacks at the edges *)

(** X16: [classify_image] raises exactly on an image of height 0, and then
    [ZeroDivisionError]; on every other image it returns an input type,
    whatever the provider does. *)
Theorem classify_image_raises_iff env image w :
  (height image = 0 ->
   classify_image env image w
     = (Raise (mkExc ZeroDivisionError "division by zero"), w)) /\
  (height image <> 0 ->
   exists t w', classify_image env image w = (Ok t, w')).
Proof.
  unfold classify_image, height, classify_with_hf, int_truediv.
  destruct (size image) as [wd ht]. simpl. split.
  - by intros ->.
  - intros Hh. apply Z.eqb_neq in Hh. rewrite Hh.
    unfold mbind, M_bind, lift, try_except, remote, mret, M_ret.
    destruct (flt lit_1_5 _); [by eexists _, _|].
    destruct (flt _ lit_0_75); [by eexists _, _|].
    destruct (truthy (HF_API_TOKEN env)); [|by eexists _, _].
    destruct (hf_classification env image); by eexists _, _.
Qed.

Lemma for_range_from_skip {S : Type} (body : Z -> S -> PyResult S) n :
  forall start s,
    (forall i s, body i s = Ok s) -> for_range_from start n body s = Ok s.
Proof.
  induction n as [|n IH]; intros start s Hb; simpl; [done|].
  rewrite Hb. by apply IH.
Qed.

Lemma math_sqrt_nonneg z :
  0 <= z -> math_sqrt (float_of_int z) = Ok (fsqrt (float_of_int z)).
Proof.
  intros Hz. destruct (decide (z = 0)) as [->|Hn]; [done|].
  pose proof (float_of_int_pos z ltac:(lia)) as Hp.
  unfold math_sqrt. destruct (float_of_int z) as [s|s| |s m e]; simpl in Hp;
    try done; [by subst s|by destruct Hp as [-> _]].
Qed.

(** X17: on an image without pixels (width 0 or height 0) both fallbacks
    return the empty image of that size; no pixel is computed, so the
    division by the normalization distance never happens. *)
Theorem fallback_empty_image image :
  0 <= width image -> 0 <= height image ->
  width image = 0 \/ height image = 0 ->
  generate_fallback_depth image = Ok (mkImage "L" (size image) []) /\
  generate_fallback_mask image = Ok (mkImage "L" (size image) []).
Proof.
  unfold width, height, generate_fallback_depth, generate_fallback_mask,
    Image_new.
  destruct (size image) as [wd ht]. simpl. intros Hw Hh Hz.
  assert (Hneg : (wd <? 0) || (ht <? 0) = false).
  { apply orb_false_intro; apply Z.ltb_ge; lia. }
  assert (Hmul : Z.to_nat (wd * ht) = 0%nat) by (destruct Hz; subst; lia).
  rewrite Hneg, Hmul. simpl.
  rewrite math_sqrt_nonneg by (rewrite !Z.pow_2_r; nia). simpl.
  unfold for_range. split.
  - destruct Hz as [->| ->]; [|done].
    by rewrite for_range_from_skip.
  - destruct Hz as [->| ->]; [|done].
    by rewrite for_range_from_skip.
Qed.

Lemma fallback_empty_image_example :
  generate_fallback_depth (blank 0 5) = Ok (mkImage "L" (0, 5) []) /\
  generate_fallback_mask (blank 0 5) = Ok (mkImage "L" (0, 5) []).
Proof.
  apply (fallback_empty_image (blank 0 5)).
  - unfold width. simpl. lia.
  - unfold height. simpl. lia.
  - left. reflexivity.
Defined.

(** ** The status of a job along its run *)

Lemma replay_processing job_id uts : forall (jobs0 : gmap string JobRow) row,
  jobs0 !! job_id = Some row ->
  status row = PROCESSING ->
  Forall (fun u => u_status u = None) (map fst uts) ->
  Forall (fun lw => status <$> lw_row lw = Some PROCESSING)
    (fst (replay job_id jobs0 uts)).
Proof.
  induction uts as [|[u t] uts IH]; intros jobs0 row Hrow Hst Hall; [done|].
  simpl in Hall. apply Forall_cons in Hall as [Hu Hall]. simpl replay.
  pose proof (update_job_lookup jobs0 job_id row t u Hrow) as Hrow'.
  destruct (update_row_fields t u row) as (Hs & _).
  unfold latest in Hs. simpl in Hs. rewrite Hu in Hs. injection Hs as Hs.
  specialize (IH _ _ Hrow' ltac:(congruence) Hall).
  destruct (replay job_id _ uts) as [writes jobs'']. simpl in *.
  constructor; [|done]. simpl. unfold get_job. rewrite Hrow'. simpl. congruence.
Qed.

(** X18: during a run of [process_image] on a job of the ledger, every
    ledger write but the last leaves the job Processing, and the last one
    leaves it Completed when the run returns and Failed when it raises;
    nothing is written after it.  The one exception is a run that raises
    an error of the database from the update that was to record the
    failure: then every write of the run leaves the job Processing. *)
Theorem process_image_status_transitions env job_id filename hint w row :
  jobs w !! job_id = Some row ->
  exists writes tail,
    ledger_log (snd (process_image env job_id filename hint w))
      = ledger_log w ++ writes ++ tail /\
    Forall (fun lw' => status <$> lw_row lw' = Some PROCESSING) writes /\
    let final s :=
      exists lw row',
        tail = [lw] /\ lw_row lw = Some row' /\
        jobs (snd (process_image env job_id filename hint w)) !! job_id
          = Some row' /\
        status row' = s in
    match fst (process_image env job_id filename hint w) with
    | Ok _ => final COMPLETED
    | Raise e =>
        final FAILED \/ tail = [] /\ exists time, db_fault env time = Some e
    end.
Proof.
  intros Hrow.
  destruct (process_image_writes env job_id filename hint w row Hrow)
    as (t & uts & rows & Hl & Hj & _ & _ & Hr).
  assert (Hproc : forall uts1 us,
            map fst uts1 = us -> us `prefix_of` pre_updates t ->
            Forall (fun lw => status <$> lw_row lw = Some PROCESSING)
              (fst (replay job_id (jobs w) uts1))).
  { intros uts1 us Hus1 Hpre.
    destruct (pre_updates_statuses t us Hpre) as [->|(rest & -> & Hrest)].
    - by destruct uts1.
    - destruct uts1 as [|[u0 t0] uts1]; [done|]. simpl in Hus1.
      injection Hus1 as -> Hus1. simpl replay.
      pose proof (update_job_lookup (jobs w) job_id row t0 upd_processing Hrow)
        as Hr0.
      pose proof (replay_processing job_id uts1 _ _ Hr0 eq_refl) as Hall.
      rewrite Hus1 in Hall. specialize (Hall Hrest).
      destruct (replay job_id _ uts1) as [writes jobs'']. simpl in *.
      constructor; [|done]. simpl. unfold get_job. by rewrite Hr0. }
  assert (Hfinal : forall us last_u s,
            map fst uts = us ++ [last_u] -> us `prefix_of` pre_updates t ->
            u_status last_u = Some s ->
            exists writes lw row',
              fst (replay job_id (jobs w) uts) = writes ++ [lw] /\
              Forall (fun lw => status <$> lw_row lw = Some PROCESSING) writes /\
              lw_row lw = Some row' /\ final_row row uts = row' /\
              status row' = s).
  { intros us last_u s Hu Hpre Hlast.
    destruct (map_snoc_inv _ _ _ _ Hu) as (uts1 & [u1 t1] & -> & Hus1 & Hu1).
    simpl in Hu1. subst u1. rewrite replay_snoc. simpl.
    destruct (replay_final job_id uts1 (jobs w) row Hrow) as [Hf1 _].
    pose proof (update_job_lookup _ job_id _ t1 last_u Hf1) as Hrow'.
    eexists _, _, (update_row t1 last_u (final_row row uts1)).
    split; [done|]. split; [by apply (Hproc uts1 us)|]. split; [|split].
    - simpl. unfold get_job. exact Hrow'.
    - unfold final_row. by rewrite foldl_app.
    - destruct (update_row_fields t1 last_u (final_row row uts1)) as (Hs & _).
      unfold latest in Hs. simpl in Hs. rewrite Hlast in Hs. by injection Hs. }
  destruct (fst (process_image env job_id filename hint w)) as [[]|e].
  - destruct Hr as (outs & _ & _ & Hu & _).
    destruct (Hfinal _ _ COMPLETED Hu ltac:(done) eq_refl)
      as (writes & lw & row' & Hw & Hall & Hlw & Hrow' & Hst).
    exists writes, [lw]. rewrite Hl, Hw. split; [done|]. split; [done|].
    exists lw, row'. by rewrite Hj, Hrow'.
  - destruct Hr as (us & Hpre & [Hu|[Hu Hf]]).
    + destruct (Hfinal _ _ FAILED Hu Hpre eq_refl)
        as (writes & lw & row' & Hw & Hall & Hlw & Hrow' & Hst).
      exists writes, [lw]. rewrite Hl, Hw. split; [done|]. split; [done|].
      left. exists lw, row'. by rewrite Hj, Hrow'.
    + exists (fst (replay job_id (jobs w) uts)), []. rewrite app_nil_r.
      split; [done|]. split; [by apply (Hproc uts us)|]. by right.
Qed.

Lemma process_image_status_transitions_example :
  let w := example_world uploaded in
  exists writes tail,
    ledger_log (snd (process_image example_env "job-0" "a.png" None w))
      = ledger_log w ++ writes ++ tail /\
    Forall (fun lw' => status <$> lw_row lw' = Some PROCESSING) writes /\
    let final s :=
      exists lw row',
        tail = [lw] /\ lw_row lw = Some row' /\
        jobs (snd (process_image example_env "job-0" "a.png" None w)) !! "job-0"
          = Some row' /\
        status row' = s in
    match fst (process_image example_env "job-0" "a.png" None w) with
    | Ok _ => final COMPLETED
    | Raise e =>
        final FAILED \/
        tail = [] /\ exists time, db_fault example_env time = Some e
    end.
Proof.
  intros w.
  apply (process_image_status_transitions example_env "job-0" "a.png" None w
           new_job).
  exact (lookup_singleton_eq "job-0" new_job).
Defined.

(** X19: for a job that starts without error and outputs, after a run of
    [process_image] the row has an error exactly when it is Failed and
    outputs exactly when it is Completed, with one exception: no write of
    the run landed, the database having refused the first update and the
    one of the handler; the row is then the one the job started with.  So
    for a job that starts Pending or Processing it holds without
    exception. *)
Theorem process_image_error_iff_failed env job_id filename hint w row :
  let w' := snd (process_image env job_id filename hint w) in
  jobs w !! job_id = Some row ->
  error row = None -> outputs row = None ->
  exists row',
    jobs w' !! job_id = Some row' /\
    (error_and_outputs_match row' \/
     row' = row /\ ledger_log w' = ledger_log w /\
     exists e time,
       fst (process_image env job_id filename hint w) = Raise e /\
       db_fault env time = Some e) /\
    (status row = PENDING \/ status row = PROCESSING ->
     error_and_outputs_match row').
Proof.
  intros w' Hrow Herr Hout. subst w'.
  destruct (process_image_writes env job_id filename hint w row Hrow)
    as (t & uts & rows & Hl & Hj & _ & _ & Hr).
  exists (final_row row uts). split; [done|].
  assert (H : error_and_outputs_match (final_row row uts) \/
              final_row row uts = row /\
              ledger_log (snd (process_image env job_id filename hint w))
                = ledger_log w /\
              exists e time,
                fst (process_image env job_id filename hint w) = Raise e /\
                db_fault env time = Some e).
  { destruct (final_row_fields uts row) as (Hs & _ & _ & He & Ho).
    rewrite Herr in He. rewrite Hout in Ho.
    destruct (fst (process_image env job_id filename hint w)) as [[]|e].
    - left. destruct Hr as (outs & _ & _ & Hu & _). rewrite Hu in Hs, He, Ho.
      rewrite latest_snoc in Hs. rewrite latest_snoc in He.
      rewrite latest_snoc in Ho.
      cbn [upd_completed u_status u_error u_outputs] in *.
      destruct (pre_updates_no_error t (pre_updates t) None None) as [H1 _];
        [done|].
      rewrite H1 in He. injection Hs as Hs. unfold error_and_outputs_match.
      rewrite Hs, He, Ho.
      split; split; try done; by intros [? ?].
    - destruct Hr as (us & Hp & [Hu|[Hu [time Hf]]]); rewrite Hu in Hs, He, Ho.
      + left. rewrite latest_snoc in Hs. rewrite latest_snoc in He.
        rewrite latest_snoc in Ho.
        cbn [upd_failed u_status u_error u_outputs] in *.
        destruct (pre_updates_no_error t us None None Hp) as [_ H2].
        rewrite H2 in Ho. injection Hs as Hs. unfold error_and_outputs_match.
        rewrite Hs, He, Ho.
        split; split; try done; by intros [? ?].
      + destruct (latest_status_prefix t us (Some (status row)) Hp)
          as [->|Hst].
        * right. destruct uts; [|discriminate].
          split; [done|]. split; [by rewrite Hl, app_nil_r|].
          by exists e, time.
        * left. destruct (pre_updates_no_error t us None None Hp) as [H1 H2].
          rewrite H1 in He. rewrite H2 in Ho. rewrite Hst in Hs.
          injection Hs as Hs. unfold error_and_outputs_match.
          rewrite Hs, He, Ho.
          split; split; try done; by intros [? ?]. }
  split; [exact H|].
  intros Hstart. destruct H as [H|(Heq & _)]; [exact H|].
  rewrite Heq. unfold error_and_outputs_match. rewrite Herr, Hout.
  split; split; try (by intros [? ?]); intros Hx;
    destruct Hstart as [Hst|Hst]; congruence.
Qed.

Lemma process_image_error_iff_failed_example :
  let w := example_world ∅ in
  exists row',
    jobs (snd (process_image example_env "job-0" "a.png" None w)) !! "job-0"
      = Some row' /\
    error_and_outputs_match row'.
Proof.
  intros w.
  destruct (process_image_error_iff_failed example_env "job-0" "a.png" None w
              new_job (lookup_singleton_eq "job-0" new_job) eq_refl eq_refl)
    as (row' & Hj & _ & Hm).
  exists row'. split; [exact Hj|]. apply Hm. by left.
Defined.

(** The status the job starts with matters: a row that is Failed without
    an error text is left as it is when the database takes no write of the
    run, the first update raising and the one of the handler after it. *)
Lemma failed_row_without_error_kept :
  let locked := mkExc OperationalError "database is locked" in
  let env := mkEnv None None (fun _ => provider_down) (fun _ => provider_down)
               (fun _ => provider_down) (fun _ => Ok (blank 2 2))
               (fun _ => Ok "PNG") (fun _ => None) (fun _ => Some locked) in
  let row := mkJobRow "job-0" FAILED 0 0 None 0 None "a.png" None in
  let w := mkWorld {["job-0" := row]} [] uploaded 1 example_uuid 0 [] [] [] in
  process_image env "job-0" "a.png" None w
    = (Raise locked,
       mkWorld {["job-0" := row]} [] uploaded 3 example_uuid 0 [] [] []).
Proof. vm_compute. reflexivity. Qed.

(** ** From the upload to the final status *)




(** ** Deleting a job over HTTP *)

(** X21: [DELETE /jobs/{id}] answers [deleted] for a job of the ledger and
    404 for any other id, and in both cases changes nothing: the row, the
    asset rows and the files are all still there, and [GET /jobs/{id}]
    answers as before. *)
Theorem delete_job_deletes_nothing job_id w :
  snd (Routes.delete_job job_id w) = w /\
  fst (Routes.delete_job job_id w) =
    Ok (if bool_decide (is_Some (jobs w !! job_id))
        then Routes.Response ("deleted", job_id)
        else Routes.HTTPException 404 "Job not found") /\
  Routes.get_job job_id (snd (Routes.delete_job job_id w))
    = Routes.get_job job_id w.
Proof.
  unfold Routes.delete_job, Db.get_job, Database.get_job, mbind, M_bind,
    mret, M_ret. simpl.
  by destruct (jobs w !! job_id) as [row|] eqn:E.
Qed.
